(** * Search store (apps/web/stores/search-store.ts)

    A shallow embedding of the Zustand store that drives one lead search:
    creation, interval polling, cancellation, history and reset.  The store
    lives in a browser, so the embedding carries, next to the store's state,
    the browser's table of active interval timers, the fetches that were
    sent and not yet settled, the requests sent so far and the logger's
    output.  Every [async] action is cut at its [await]: the part up to the
    fetch is one action, the part that runs once the fetch settles is
    another, so that other calls may run in between as they do in the
    browser. *)

From Stdlib Require Import String List Bool Arith PArith QArith Qminmax Lia.
Import ListNotations.
Local Open Scope string_scope.
Local Open Scope list_scope.

(** ** JavaScript values used by the store *)

Module JS.

(** A [number].  The finite doubles are read as rationals: the store only
    compares numbers and hands them on, it never does arithmetic. *)
Inductive number : Type :=
| NaN
| Infinity (negative : bool)
| Finite (q : Q).

(** [a < b]; false as soon as one side is NaN. *)
Definition lt (a b : number) : bool :=
  match a, b with
  | NaN, _ | _, NaN => false
  | Finite x, Finite y => match (x ?= y)%Q with Lt => true | _ => false end
  | Infinity true, Infinity true => false
  | Infinity true, _ => true
  | Infinity false, _ => false
  | Finite _, Infinity negative => negb negative
  end.

(** [Math.min(a, b)]: NaN if either argument is NaN. *)
Definition Math_min (a b : number) : number :=
  match a, b with
  | NaN, _ | _, NaN => NaN
  | _, _ => if lt b a then b else a
  end.

(** [Math.max(a, b)]: NaN if either argument is NaN. *)
Definition Math_max (a b : number) : number :=
  match a, b with
  | NaN, _ | _, NaN => NaN
  | _, _ => if lt a b then b else a
  end.

(** A thrown value: an [Error] with its message, or anything else. *)
Inductive Thrown : Type :=
| Error (message : string)
| NotAnError.

(** [s || fallback] for a string-valued property that may be absent:
    an absent property and the empty string are both falsy. *)
Definition or_else (s : option string) (fallback : string) : string :=
  match s with
  | Some EmptyString => fallback
  | Some v => v
  | None => fallback
  end.

(** [l || []] for a list-valued property that may be absent. *)
Definition or_empty {A : Type} (l : option (list A)) : list A :=
  match l with
  | Some v => v
  | None => []
  end.

(** [error instanceof Error ? error.message : fallback] *)
Definition message_of (t : Thrown) (fallback : string) : string :=
  match t with
  | Error m => m
  | NotAnError => fallback
  end.

End JS.

Import JS.

(** ** Types of the store *)

Inductive SearchStatus : Type :=
| idle | searching | completed | cancelled | error.

Definition SearchStatus_eqb (a b : SearchStatus) : bool :=
  match a, b with
  | idle, idle | searching, searching | completed, completed
  | cancelled, cancelled | error, error => true
  | _, _ => false
  end.

Inductive CompanySize : Type := solo | small | medium | enterprise.

Inductive OverrideMode : Type := supplement | replace.

Record ManualOverride : Type := {
  mode : OverrideMode;
  keywords : option string;
  location : option string;
  companySize : option CompanySize;
  budgetMin : option number;
  budgetMax : option number;
  industry : option string;
}.

Inductive SourceProbe : Type := pending_probe | querying | success | failed.

Record SourceStatus : Type := {
  source_name : string;
  source_status : SourceProbe;
  leadsFound : number;
}.

Record IntentScoreBreakdown : Type := {
  source_hierarchy : number;
  keywords_score : number;
  company_size : number;
  timing_recency : number;
  budget_signals : number;
  industry_multipliers : number;
}.

Record Lead : Type := {
  lead_id : string;
  lead_name : string;
  company : string;
  email : option string;
  phone : option string;
  intent_score : number;
  score_breakdown : option IntentScoreBreakdown;
  source : string;
  source_url : option string;
  created_at : string;
}.

(** A search snapshot as the service sends it.  The interface declares
    [sources] and [leads] as arrays, the store reads both with [|| []], so a
    body may come without them. *)
Record SearchResult : Type := {
  id : string;
  client_profile_id : string;
  result_status : SearchStatus;
  result_progress : number;
  quality_level : number;
  result_sources : option (list SourceStatus);
  result_leads : option (list Lead);
  leads_found : number;
  error_message : option string;
  started_at : string;
  completed_at : option string;
}.

(** The handle [setInterval] returns.  Browsers hand out integers greater
    than zero (Node hands out objects), so a handle is always truthy. *)
Definition TimerId : Type := positive.

Record SearchState : Type := {
  currentSearch : option SearchResult;
  status : SearchStatus;
  progress : number;
  sources : list SourceStatus;
  leads : list Lead;
  error_ : option string;
  qualityLevel : number;
  manualOverride : option ManualOverride;
  pollingInterval : option TimerId;
  searchHistory : list SearchResult;
}.

Definition initialState : SearchState := {|
  currentSearch := None;
  status := idle;
  progress := Finite 0;
  sources := [];
  leads := [];
  error_ := None;
  qualityLevel := Finite (7 # 10);
  manualOverride := None;
  pollingInterval := None;
  searchHistory := [];
|}.

(** ** Zustand's [set]: a shallow merge of some keys into the state *)

Inductive Assign : Type :=
| currentSearch_is (v : option SearchResult)
| status_is (v : SearchStatus)
| progress_is (v : number)
| sources_are (v : list SourceStatus)
| leads_are (v : list Lead)
| error_is (v : option string)
| qualityLevel_is (v : number)
| manualOverride_is (v : option ManualOverride)
| pollingInterval_is (v : option TimerId)
| searchHistory_is (v : list SearchResult).

Definition assign (s : SearchState) (a : Assign) : SearchState :=
  match a with
  | currentSearch_is v =>
      {| currentSearch := v; status := status s; progress := progress s;
         sources := sources s; leads := leads s; error_ := error_ s;
         qualityLevel := qualityLevel s; manualOverride := manualOverride s;
         pollingInterval := pollingInterval s;
         searchHistory := searchHistory s |}
  | status_is v =>
      {| currentSearch := currentSearch s; status := v; progress := progress s;
         sources := sources s; leads := leads s; error_ := error_ s;
         qualityLevel := qualityLevel s; manualOverride := manualOverride s;
         pollingInterval := pollingInterval s;
         searchHistory := searchHistory s |}
  | progress_is v =>
      {| currentSearch := currentSearch s; status := status s; progress := v;
         sources := sources s; leads := leads s; error_ := error_ s;
         qualityLevel := qualityLevel s; manualOverride := manualOverride s;
         pollingInterval := pollingInterval s;
         searchHistory := searchHistory s |}
  | sources_are v =>
      {| currentSearch := currentSearch s; status := status s;
         progress := progress s; sources := v; leads := leads s;
         error_ := error_ s; qualityLevel := qualityLevel s;
         manualOverride := manualOverride s;
         pollingInterval := pollingInterval s;
         searchHistory := searchHistory s |}
  | leads_are v =>
      {| currentSearch := currentSearch s; status := status s;
         progress := progress s; sources := sources s; leads := v;
         error_ := error_ s; qualityLevel := qualityLevel s;
         manualOverride := manualOverride s;
         pollingInterval := pollingInterval s;
         searchHistory := searchHistory s |}
  | error_is v =>
      {| currentSearch := currentSearch s; status := status s;
         progress := progress s; sources := sources s; leads := leads s;
         error_ := v; qualityLevel := qualityLevel s;
         manualOverride := manualOverride s;
         pollingInterval := pollingInterval s;
         searchHistory := searchHistory s |}
  | qualityLevel_is v =>
      {| currentSearch := currentSearch s; status := status s;
         progress := progress s; sources := sources s; leads := leads s;
         error_ := error_ s; qualityLevel := v;
         manualOverride := manualOverride s;
         pollingInterval := pollingInterval s;
         searchHistory := searchHistory s |}
  | manualOverride_is v =>
      {| currentSearch := currentSearch s; status := status s;
         progress := progress s; sources := sources s; leads := leads s;
         error_ := error_ s; qualityLevel := qualityLevel s;
         manualOverride := v; pollingInterval := pollingInterval s;
         searchHistory := searchHistory s |}
  | pollingInterval_is v =>
      {| currentSearch := currentSearch s; status := status s;
         progress := progress s; sources := sources s; leads := leads s;
         error_ := error_ s; qualityLevel := qualityLevel s;
         manualOverride := manualOverride s; pollingInterval := v;
         searchHistory := searchHistory s |}
  | searchHistory_is v =>
      {| currentSearch := currentSearch s; status := status s;
         progress := progress s; sources := sources s; leads := leads s;
         error_ := error_ s; qualityLevel := qualityLevel s;
         manualOverride := manualOverride s;
         pollingInterval := pollingInterval s; searchHistory := v |}
  end.

(** The keys of an object literal, merged left to right. *)
Definition merge (patch : list Assign) (s : SearchState) : SearchState :=
  fold_left assign patch s.

(** A whole state used as a patch, as in [set(initialState)]. *)
Definition all_keys (s : SearchState) : list Assign :=
  [ currentSearch_is (currentSearch s); status_is (status s);
    progress_is (progress s); sources_are (sources s); leads_are (leads s);
    error_is (error_ s); qualityLevel_is (qualityLevel s);
    manualOverride_is (manualOverride s);
    pollingInterval_is (pollingInterval s);
    searchHistory_is (searchHistory s) ].

(** ** The store's surroundings *)

(** The four requests of the store, each through [fetchWithAuth]. *)
Inductive Request : Type :=
| POST_searches (client_profile : string) (quality : number)
                (manual_override : option ManualOverride)
| GET_search (searchId : string)
| POST_cancel (searchId : string)
| GET_searches (client_profile : string).

(** What an [await]ing action goes on with once its fetch has settled. *)
Inductive Continuation : Type :=
| AfterCreate
| AfterCancel
| AfterStatus (searchId : string)
| AfterHistory.

Inductive LogLevel : Type := info | warn | error_level.

Record LogEntry : Type := { level : LogLevel; event : string }.

(** [response.json()]: resolves with a value or rejects. *)
Inductive Json (A : Type) : Type :=
| Parsed (a : A)
| Unparsed (t : Thrown).
Arguments Parsed {A} a.
Arguments Unparsed {A} t.

(** A value as [response.json()] delivers it: any JSON value.  A number
    comes with the text [String] prints for it (the printing of doubles is
    not modelled); an object lists its members in the order of the text,
    where a later member of the same name replaces an earlier one. *)
#[warnings="-register-all"]
Inductive JsonValue : Type :=
| JNull
| JBool (b : bool)
| JNumber (n : number) (text : string)
| JString (s : string)
| JArray (items : list JsonValue)
| JObject (members : list (string * JsonValue)).

(** The member named [k] of an object: the last one of that name. *)
Fixpoint member {A : Type} (k : string) (members : list (string * A))
  : option A :=
  match members with
  | [] => None
  | (k', v) :: rest =>
      match member k rest with
      | Some later => Some later
      | None => if String.eqb k' k then Some v else None
      end
  end.

(** [v[k]] for a value [v] that is not null, where [k] is no property of
    the prototypes: only an object has it, and only as its own member. *)
Definition property (k : string) (v : JsonValue) : option JsonValue :=
  match v with
  | JObject members => member k members
  | _ => None
  end.

(** Truthiness: [null], [false], zero, NaN and the empty string are
    falsy; every array and every object is truthy. *)
Definition truthy (v : JsonValue) : bool :=
  match v with
  | JNull => false
  | JBool b => b
  | JNumber (Finite q) _ => negb (Qeq_bool q 0)
  | JNumber (Infinity _) _ => true
  | JNumber NaN _ => false
  | JString EmptyString => false
  | JString _ => true
  | JArray _ => true
  | JObject _ => true
  end.

(** How a fetch settles: it rejects, or it resolves with a response whose
    [ok] flag is false (non-2xx) or true. *)
Inductive Fetched (A : Type) : Type :=
| Rejected (t : Thrown)
| NotOk (body : Json JsonValue)
| Ok (body : Json A).
Arguments Rejected {A} t.
Arguments NotOk {A} body.
Arguments Ok {A} body.

(** [await response.json().catch(() => ({}))] *)
Definition json_or_empty (body : Json JsonValue) : JsonValue :=
  match body with
  | Parsed d => d
  | Unparsed _ => JObject []
  end.

Record HistoryBody : Type := { searches : option (list SearchResult) }.

Record World : Type := {
  store : SearchState;
  timers : list (TimerId * string);
  next_timer : TimerId;
  pending : list Continuation;
  requests : list Request;
  log : list LogEntry;
}.

Definition initialWorld : World := {|
  store := initialState;
  timers := [];
  next_timer := 1%positive;
  pending := [];
  requests := [];
  log := [];
|}.

(** ** Actions

    An action runs on the world and either returns or throws; what it did
    to the world before throwing stays done. *)

Inductive Outcome (A : Type) : Type :=
| Returned (a : A)
| Threw (t : Thrown).
Arguments Returned {A} a.
Arguments Threw {A} t.

Definition Action (A : Type) : Type := World -> Outcome A * World.

Definition ret {A : Type} (a : A) : Action A := fun w => (Returned a, w).

Definition throw {A : Type} (t : Thrown) : Action A := fun w => (Threw t, w).

Definition bind {A B : Type} (m : Action A) (k : A -> Action B) : Action B :=
  fun w =>
    match m w with
    | (Returned a, w') => k a w'
    | (Threw t, w') => (Threw t, w')
    end.

Definition try_catch {A : Type} (body : Action A) (handler : Thrown -> Action A)
  : Action A :=
  fun w =>
    match body w with
    | (Returned a, w') => (Returned a, w')
    | (Threw t, w') => handler t w'
    end.

Declare Scope action_scope.
Delimit Scope action_scope with action.
Notation "x <- m ;; k" := (bind m (fun x => k))
  (at level 61, m at next level, right associativity) : action_scope.
Notation "m ;; k" := (bind m (fun _ => k))
  (at level 61, right associativity) : action_scope.
Local Open Scope action_scope.

(** The world an action leaves behind. *)
Definition exec {A : Type} (m : Action A) (w : World) : World := snd (m w).

(** The messages of the two TypeErrors a JSON value can raise, in the
    wording of V8 (Chrome, Edge, Node): reading a property of [null], and
    converting to a string an object whose own [toString] member is not a
    function. *)
Definition TypeError_reading_null (k : string) : string :=
  String.append "Cannot read properties of null (reading '"
                (String.append k "')").

Definition TypeError_to_primitive : string :=
  "Cannot convert object to primitive value".

(** [String(v)], as [new Error(v)] applies it to its argument: a string
    is itself; an array is its elements joined by commas, a [null] element
    counting as empty; an object is [[object Object]], unless it has a
    member [toString] of its own, which as a JSON value is no function:
    then the conversion throws. *)
Fixpoint ToString (v : JsonValue) : Outcome string :=
  match v with
  | JNull => Returned "null"
  | JBool true => Returned "true"
  | JBool false => Returned "false"
  | JNumber _ text => Returned text
  | JString s => Returned s
  | JArray items =>
      (fix join (l : list JsonValue) : Outcome string :=
         match l with
         | [] => Returned ""
         | x :: rest =>
             match match x with
                   | JNull => Returned ""
                   | _ => ToString x
                   end with
             | Threw t => Threw t
             | Returned first =>
                 match rest with
                 | [] => Returned first
                 | _ :: _ =>
                     match join rest with
                     | Threw t => Threw t
                     | Returned others =>
                         Returned (String.append first
                                     (String.append "," others))
                     end
                 end
             end
         end) items
  | JObject members =>
      match member "toString" members with
      | Some _ => Threw (Error TypeError_to_primitive)
      | None => Returned "[object Object]"
      end
  end.

(** What [throw new Error(errorData.detail || generic)] throws: the
    TypeError of reading [detail] off [null]; or the TypeError of turning
    a truthy [detail] into the message; or the new [Error], whose message
    is the truthy [detail] as a string, and [generic] otherwise. *)
Definition thrown_for (errorData : JsonValue) (generic : string) : Thrown :=
  match errorData with
  | JNull => Error (TypeError_reading_null "detail")
  | _ =>
      match property "detail" errorData with
      | Some d =>
          if truthy d
          then match ToString d with
               | Returned message => Error message
               | Threw t => t
               end
          else Error generic
      | None => Error generic
      end
  end.

(** [get()] *)
Definition get : Action SearchState := fun w => (Returned (store w), w).

(** [set({...})] *)
Definition set (patch : list Assign) : Action unit :=
  fun w =>
    (Returned tt,
     {| store := merge patch (store w); timers := timers w;
        next_timer := next_timer w; pending := pending w;
        requests := requests w; log := log w |}).

(** [logger.info], [logger.warn], [logger.error]: the event name is kept. *)
Definition logger (l : LogLevel) (e : string) : Action unit :=
  fun w =>
    (Returned tt,
     {| store := store w; timers := timers w; next_timer := next_timer w;
        pending := pending w; requests := requests w;
        log := log w ++ [{| level := l; event := e |}] |}).

(** [setInterval(() => pollSearchStatus(searchId), 1500)] *)
Definition setInterval (searchId : string) : Action TimerId :=
  fun w =>
    (Returned (next_timer w),
     {| store := store w;
        timers := timers w ++ [(next_timer w, searchId)];
        next_timer := Pos.succ (next_timer w); pending := pending w;
        requests := requests w; log := log w |}).

(** [clearInterval(handle)] *)
Definition clearInterval (handle : TimerId) : Action unit :=
  fun w =>
    (Returned tt,
     {| store := store w;
        timers := filter (fun t => negb (Pos.eqb (fst t) handle)) (timers w);
        next_timer := next_timer w; pending := pending w;
        requests := requests w; log := log w |}).

(** [await fetchWithAuth(...)]: the request leaves, and the rest of the
    calling action waits in [pending] until the fetch settles. *)
Definition fetchWithAuth (r : Request) (k : Continuation) : Action unit :=
  fun w =>
    (Returned tt,
     {| store := store w; timers := timers w; next_timer := next_timer w;
        pending := pending w ++ [k]; requests := requests w ++ [r];
        log := log w |}).

(** ** The store's actions *)

Definition stopPolling : Action unit :=
  s <- get ;;
  match pollingInterval s with
  | Some handle =>
      clearInterval handle ;;
      set [pollingInterval_is None] ;;
      logger info "polling_stopped"
  | None => ret tt
  end.

Definition startPolling (searchId : string) : Action unit :=
  stopPolling ;;
  interval <- setInterval searchId ;;
  set [pollingInterval_is (Some interval)] ;;
  logger info "polling_started".

(** [startSearch] up to its [await]. *)
Definition startSearch (clientProfileId : string) : Action unit :=
  s <- get ;;
  stopPolling ;;
  set [status_is searching; progress_is (Finite 0); sources_are [];
       leads_are []; error_is None; currentSearch_is None] ;;
  logger info "search_start" ;;
  fetchWithAuth
    (POST_searches clientProfileId (qualityLevel s) (manualOverride s))
    AfterCreate.

(** [startSearch] from the moment its fetch settles. *)
Definition startSearch_settled (r : Fetched SearchResult) : Action unit :=
  try_catch
    (search <-
       match r with
       | Rejected t => throw t
       | NotOk body =>
           throw (thrown_for (json_or_empty body) "Failed to start search")
       | Ok (Unparsed t) => throw t
       | Ok (Parsed search) => ret search
       end ;;
     set [currentSearch_is (Some search); status_is (result_status search);
          progress_is (result_progress search);
          sources_are (or_empty (result_sources search));
          leads_are (or_empty (result_leads search))] ;;
     logger info "search_started" ;;
     if SearchStatus_eqb (result_status search) searching
     then startPolling (id search)
     else ret tt)
    (fun thrown =>
       let message := message_of thrown "Failed to start search" in
       logger error_level "search_start_error" ;;
       set [status_is error; error_is (Some message)]).

(** [cancelSearch] up to its [await]. *)
Definition cancelSearch : Action unit :=
  s <- get ;;
  match currentSearch s with
  | None => logger warn "cancel_search_no_active"
  | Some current =>
      stopPolling ;;
      logger info "search_cancel" ;;
      fetchWithAuth (POST_cancel (id current)) AfterCancel
  end.

(** [cancelSearch] from the moment its fetch settles. *)
Definition cancelSearch_settled (r : Fetched SearchResult) : Action unit :=
  try_catch
    (search <-
       match r with
       | Rejected t => throw t
       | NotOk body =>
           throw (thrown_for (json_or_empty body) "Failed to cancel search")
       | Ok (Unparsed t) => throw t
       | Ok (Parsed search) => ret search
       end ;;
     set [currentSearch_is (Some search); status_is cancelled;
          progress_is (result_progress search);
          sources_are (or_empty (result_sources search));
          leads_are (or_empty (result_leads search))] ;;
     logger info "search_cancelled")
    (fun thrown =>
       let message := message_of thrown "Failed to cancel search" in
       logger error_level "search_cancel_error" ;;
       set [error_is (Some message)]).

(** [pollSearchStatus] up to its [await]. *)
Definition pollSearchStatus (searchId : string) : Action unit :=
  fetchWithAuth (GET_search searchId) (AfterStatus searchId).

(** [pollSearchStatus] from the moment its fetch settles. *)
Definition pollSearchStatus_settled (r : Fetched SearchResult) : Action unit :=
  try_catch
    (search <-
       match r with
       | Rejected t => throw t
       | NotOk _ => throw (Error "Failed to fetch search status")
       | Ok (Unparsed t) => throw t
       | Ok (Parsed search) => ret search
       end ;;
     set [currentSearch_is (Some search); status_is (result_status search);
          progress_is (result_progress search);
          sources_are (or_empty (result_sources search));
          leads_are (or_empty (result_leads search));
          error_is (error_message search)] ;;
     if negb (SearchStatus_eqb (result_status search) searching)
     then stopPolling ;; logger info "search_complete"
     else ret tt)
    (fun thrown => logger error_level "search_poll_error").

Definition setQualityLevel (level : number) : Action unit :=
  let clampedLevel := Math_max (Finite 0) (Math_min (Finite 1) level) in
  set [qualityLevel_is clampedLevel].

Definition setManualOverride (override : option ManualOverride) : Action unit :=
  set [manualOverride_is override].

Definition setError (e : option string) : Action unit :=
  set [error_is e].

(** [fetchSearchHistory] up to its [await]. *)
Definition fetchSearchHistory (clientProfileId : string) : Action unit :=
  logger info "fetch_search_history" ;;
  fetchWithAuth (GET_searches clientProfileId) AfterHistory.

(** [fetchSearchHistory] from the moment its fetch settles. *)
Definition fetchSearchHistory_settled (r : Fetched HistoryBody) : Action unit :=
  try_catch
    (data <-
       match r with
       | Rejected t => throw t
       | NotOk _ => throw (Error "Failed to fetch search history")
       | Ok (Unparsed t) => throw t
       | Ok (Parsed data) => ret data
       end ;;
     set [searchHistory_is (or_empty (searches data))] ;;
     logger info "search_history_fetched")
    (fun thrown => logger error_level "search_history_error").

Definition reset : Action unit :=
  stopPolling ;;
  set (all_keys initialState) ;;
  logger info "search_store_reset".

(** ** The event loop

    What can happen to the store: a caller invokes an action, an active
    interval timer fires, or a fetch that is still waiting settles (in any
    order).  An event that cannot happen, such as a cleared timer firing,
    leaves the world as it is. *)

Inductive Event : Type :=
| CallStartSearch (clientProfileId : string)
| CallCancelSearch
| CallPollSearchStatus (searchId : string)
| CallSetQualityLevel (level : number)
| CallSetManualOverride (override : option ManualOverride)
| CallSetError (e : option string)
| CallStartPolling (searchId : string)
| CallStopPolling
| CallFetchSearchHistory (clientProfileId : string)
| CallReset
| TimerFires (handle : TimerId)
| SearchFetchSettles (n : nat) (r : Fetched SearchResult)
| HistoryFetchSettles (n : nat) (r : Fetched HistoryBody).

(** The search an active timer polls for. *)
Definition timer_target (handle : TimerId) (w : World) : option string :=
  option_map snd (find (fun t => Pos.eqb (fst t) handle) (timers w)).

(** The [n]-th waiting fetch leaves [pending]. *)
Definition settle (n : nat) (w : World) : World :=
  {| store := store w; timers := timers w; next_timer := next_timer w;
     pending := firstn n (pending w) ++ skipn (S n) (pending w);
     requests := requests w; log := log w |}.

Definition step (w : World) (ev : Event) : World :=
  match ev with
  | CallStartSearch clientProfileId => exec (startSearch clientProfileId) w
  | CallCancelSearch => exec cancelSearch w
  | CallPollSearchStatus searchId => exec (pollSearchStatus searchId) w
  | CallSetQualityLevel level => exec (setQualityLevel level) w
  | CallSetManualOverride override => exec (setManualOverride override) w
  | CallSetError e => exec (setError e) w
  | CallStartPolling searchId => exec (startPolling searchId) w
  | CallStopPolling => exec stopPolling w
  | CallFetchSearchHistory clientProfileId =>
      exec (fetchSearchHistory clientProfileId) w
  | CallReset => exec reset w
  | TimerFires handle =>
      match timer_target handle w with
      | Some searchId => exec (pollSearchStatus searchId) w
      | None => w
      end
  | SearchFetchSettles n r =>
      match nth_error (pending w) n with
      | Some AfterCreate => exec (startSearch_settled r) (settle n w)
      | Some AfterCancel => exec (cancelSearch_settled r) (settle n w)
      | Some (AfterStatus _) => exec (pollSearchStatus_settled r) (settle n w)
      | _ => w
      end
  | HistoryFetchSettles n r =>
      match nth_error (pending w) n with
      | Some AfterHistory => exec (fetchSearchHistory_settled r) (settle n w)
      | _ => w
      end
  end.

Definition run (evs : list Event) (w : World) : World := fold_left step evs w.

(** A fetch that did not deliver a parsed 2xx body. *)
Definition fetch_failed {A : Type} (r : Fetched A) : bool :=
  match r with
  | Ok (Parsed _) => false
  | _ => true
  end.

(** The message the [catch] block of an action stores for a failed fetch,
    case by case.  A rejected fetch or an unreadable 2xx body: the thrown
    error's own message, or [generic] when what was thrown is no [Error].
    A non-2xx response: [generic] when its body is unreadable, is not an
    object, or is an object without a truthy [detail]; the truthy [detail]
    as a string otherwise (the TypeError's message when that conversion
    throws); and the TypeError's message of reading [detail] off [null]
    when the body is the value [null]. *)
Definition failure_message {A : Type} (r : Fetched A) (generic : string)
  : string :=
  match r with
  | Rejected t | Ok (Unparsed t) => message_of t generic
  | NotOk (Unparsed _) => generic
  | NotOk (Parsed JNull) => TypeError_reading_null "detail"
  | NotOk (Parsed (JObject members)) =>
      match member "detail" members with
      | Some d =>
          if truthy d
          then match ToString d with
               | Returned message => message
               | Threw t => message_of t generic
               end
          else generic
      | None => generic
      end
  | NotOk (Parsed _) => generic
  | Ok (Parsed _) => generic
  end.

(** The error string in the words of the specification: the [detail] field
    of the response when there is one, otherwise the action's generic
    message.  Kept apart from [failure_message], which is what the [catch]
    blocks compute, so that the two can be compared. *)
Definition detail_or_generic {A : Type} (r : Fetched A) (generic : string)
  : string :=
  match r with
  | NotOk (Parsed d) =>
      match property "detail" d with
      | Some (JString m) => m
      | _ => generic
      end
  | _ => generic
  end.

(** The store agrees with the browser on which timer is running. *)
Definition timer_inv (w : World) : Prop :=
  map fst (timers w) =
  match pollingInterval (store w) with
  | Some handle => [handle]
  | None => []
  end.

(** ** Sample data and the scenarios of the search page *)

Definition sample_lead (n : string) : Lead := {|
  lead_id := n; lead_name := String.append "Lead " n; company := "Acme";
  email := None; phone := None; intent_score := Finite (8 # 10);
  score_breakdown := None; source := "upwork"; source_url := None;
  created_at := "2025-01-01T00:00:00Z";
|}.

Definition sample_result (st : SearchStatus) (p : number) (ls : list Lead)
  : SearchResult := {|
  id := "s1"; client_profile_id := "p1"; result_status := st;
  result_progress := p; quality_level := Finite (7 # 10);
  result_sources := None; result_leads := Some ls;
  leads_found := Finite 0; error_message := None;
  started_at := "2025-01-01T00:00:00Z"; completed_at := None;
|}.

Definition two_leads : list Lead := [sample_lead "a"; sample_lead "b"].

Definition three_leads : list Lead := two_leads ++ [sample_lead "c"].

(** A search is created and polled once: status [searching], one timer. *)
Definition polling_world : World :=
  run [ CallStartSearch "p1";
        SearchFetchSettles 0 (Ok (Parsed (sample_result searching (Finite 0) [])));
        TimerFires 1%positive;
        SearchFetchSettles 0
          (Ok (Parsed (sample_result searching (Finite (1 # 2)) two_leads))) ]
      initialWorld.

(** ** The manual override panel (components/search/manual-override.tsx)

    The panel receives the store's [manualOverride] and hands every edit
    to [setManualOverride]. *)

Module ManualOverridePanel.

Definition defaultOverride : ManualOverride := {|
  mode := supplement;
  keywords := Some "";
  location := Some "";
  companySize := None;
  budgetMin := None;
  budgetMax := None;
  industry := Some "";
|}.

(** [override || defaultOverride] *)
Definition currentOverride (override : option ManualOverride)
  : ManualOverride :=
  match override with
  | Some o => o
  | None => defaultOverride
  end.

(** The calls of [handleChange(field, value)] the inputs make: the two
    radio buttons, the three text inputs, the select (a size, or undefined
    for 'Any size') and the two number inputs ([parseInt] of the text, or
    undefined when the text is empty). *)
Inductive Change : Type :=
| change_mode (value : OverrideMode)
| change_keywords (value : string)
| change_location (value : string)
| change_industry (value : string)
| change_companySize (value : option CompanySize)
| change_budgetMin (value : option number)
| change_budgetMax (value : option number).

(** [{ ...currentOverride, [field]: value }] *)
Definition updated (o : ManualOverride) (c : Change) : ManualOverride :=
  match c with
  | change_mode v =>
      {| mode := v; keywords := keywords o; location := location o;
         companySize := companySize o; budgetMin := budgetMin o;
         budgetMax := budgetMax o; industry := industry o |}
  | change_keywords v =>
      {| mode := mode o; keywords := Some v; location := location o;
         companySize := companySize o; budgetMin := budgetMin o;
         budgetMax := budgetMax o; industry := industry o |}
  | change_location v =>
      {| mode := mode o; keywords := keywords o; location := Some v;
         companySize := companySize o; budgetMin := budgetMin o;
         budgetMax := budgetMax o; industry := industry o |}
  | change_industry v =>
      {| mode := mode o; keywords := keywords o; location := location o;
         companySize := companySize o; budgetMin := budgetMin o;
         budgetMax := budgetMax o; industry := Some v |}
  | change_companySize v =>
      {| mode := mode o; keywords := keywords o; location := location o;
         companySize := v; budgetMin := budgetMin o;
         budgetMax := budgetMax o; industry := industry o |}
  | change_budgetMin v =>
      {| mode := mode o; keywords := keywords o; location := location o;
         companySize := companySize o; budgetMin := v;
         budgetMax := budgetMax o; industry := industry o |}
  | change_budgetMax v =>
      {| mode := mode o; keywords := keywords o; location := location o;
         companySize := companySize o; budgetMin := budgetMin o;
         budgetMax := v; industry := industry o |}
  end.

(** Truthiness of an optional string: absent and empty are falsy. *)
Definition truthy_text (s : option string) : bool :=
  match s with
  | Some EmptyString => false
  | Some _ => true
  | None => false
  end.

(** Truthiness of an optional number: absent, zero and NaN are falsy. *)
Definition truthy_number (n : option number) : bool :=
  match n with
  | Some (Finite q) => negb (Qeq_bool q 0)
  | Some (Infinity _) => true
  | Some NaN => false
  | None => false
  end.

(** Truthiness of an optional company size: the four sizes are non-empty
    strings. *)
Definition truthy_size (c : option CompanySize) : bool :=
  match c with
  | Some _ => true
  | None => false
  end.

(** [isEmpty] of [handleChange] *)
Definition isEmpty (u : ManualOverride) : bool :=
  match mode u with supplement => true | replace => false end
  && negb (truthy_text (keywords u))
  && negb (truthy_text (location u))
  && negb (truthy_size (companySize u))
  && negb (truthy_number (budgetMin u))
  && negb (truthy_number (budgetMax u))
  && negb (truthy_text (industry u)).

(** What [handleChange] passes to [onChange]. *)
Definition handleChange (override : option ManualOverride) (c : Change)
  : option ManualOverride :=
  let u := updated (currentOverride override) c in
  if isEmpty u then None else Some u.

(** What [handleClear] passes to [onChange]. *)
Definition handleClear : option ManualOverride := None.

(** An input of the panel changes, on the page: the panel is given the
    store's [manualOverride] and [setManualOverride] as [onChange]. *)
Definition edit (c : Change) : Action unit :=
  bind get (fun s => setManualOverride (handleChange (manualOverride s) c)).

(** The 'Clear all overrides' button, on the page. *)
Definition clear : Action unit := setManualOverride handleClear.

(** The new value of a change is one the panel reads as not set. *)
Definition unsets (c : Change) : bool :=
  match c with
  | change_mode supplement => true
  | change_mode replace => false
  | change_keywords v | change_location v | change_industry v =>
      negb (truthy_text (Some v))
  | change_companySize v => negb (truthy_size v)
  | change_budgetMin v | change_budgetMax v => negb (truthy_number v)
  end.

End ManualOverridePanel.

(** ** The search page (app/(dashboard)/search/page.tsx) *)

Module SearchPage.

(** A client profile, as the client store declares it (the scoring
    weights, which the page never reads, are left out). *)
Record ClientProfile : Type := {
  profile_id : string;
  user_id : string;
  company_name : string;
  profile_industry : string;
  ideal_customer_profile : string;
  services : list string;
  additional_context : option string;
  is_active : bool;
  profile_created_at : string;
  updated_at : string;
}.

(** The page: the search store in its surroundings, and where the router
    was pushed to. *)
Record Page : Type := {
  search : World;
  pushed : list string;
}.

(** [handleStartSearch], up to the [await] inside [startSearch]. *)
Definition handleStartSearch (activeProfile : option ClientProfile)
                             (pg : Page) : Page :=
  match activeProfile with
  | None =>
      {| search := exec (logger warn "search_attempt_no_profile") (search pg);
         pushed := pushed pg ++ ["/clients"] |}
  | Some profile =>
      {| search := exec (bind (logger info "search_initiated")
                              (fun _ => startSearch (profile_id profile)))
                        (search pg);
         pushed := pushed pg |}
  end.

(** [handleRetry]: [resetSearch()] and then [handleStartSearch()]. *)
Definition handleRetry (activeProfile : option ClientProfile) (pg : Page)
  : Page :=
  handleStartSearch activeProfile
    {| search := exec reset (search pg); pushed := pushed pg |}.

Definition isSearching (s : SearchState) : bool :=
  SearchStatus_eqb (status s) searching.

Definition showProgress (s : SearchState) : bool :=
  SearchStatus_eqb (status s) searching
  || SearchStatus_eqb (status s) completed
  || SearchStatus_eqb (status s) cancelled.

Definition showResults (s : SearchState) : bool :=
  negb (Nat.eqb (length (leads s)) 0)
  || SearchStatus_eqb (status s) completed
  || SearchStatus_eqb (status s) cancelled
  || SearchStatus_eqb (status s) error.

(** Which of its four renderings [SearchResults] returns. *)
Inductive Rendering : Type :=
| SearchFailed (text : string) (retry : bool)
| NoLeadsFound
| Nothing
| Results (updating : bool) (count : nat) (was_cancelled : bool)
          (export : bool).

(** [SearchResults], given [leads], [status], [error] and whether
    [onRetry] is passed. *)
Definition SearchResults (ls : list Lead) (st : SearchStatus)
                         (e : option string) (onRetry : bool) : Rendering :=
  if SearchStatus_eqb st error
  then SearchFailed (or_else e "An error occurred during the search.") onRetry
  else if Nat.eqb (length ls) 0
          && (SearchStatus_eqb st completed || SearchStatus_eqb st cancelled)
  then NoLeadsFound
  else if SearchStatus_eqb st idle then Nothing
  else Results (SearchStatus_eqb st searching) (length ls)
               (SearchStatus_eqb st cancelled)
               (negb (Nat.eqb (length ls) 0)).

(** The results panel of the page: rendered only under [showResults],
    always with [onRetry]. *)
Definition results_panel (s : SearchState) : option Rendering :=
  if showResults s
  then Some (SearchResults (leads s) (status s) (error_ s) true)
  else None.

(** The 'Cancel Search' button: [SearchProgress] is rendered under
    [showProgress] and shows the button while the status is [searching];
    its [onCancel] is [cancelSearch]. *)
Definition cancel_offered (s : SearchState) : bool :=
  showProgress s && SearchStatus_eqb (status s) searching.

Definition sample_profile : ClientProfile := {|
  profile_id := "p1"; user_id := "u1"; company_name := "Acme";
  profile_industry := "software"; ideal_customer_profile := "agencies";
  services := []; additional_context := None; is_active := true;
  profile_created_at := "2025-01-01T00:00:00Z";
  updated_at := "2025-01-01T00:00:00Z";
|}.

End SearchPage.

(** ** The CSV export of the results (components/search/search-results.tsx) *)

Module ResultsExport.

Definition quote : Ascii.ascii := Ascii.ascii_of_nat 34.

Definition comma : Ascii.ascii := Ascii.ascii_of_nat 44.

Definition newline : Ascii.ascii := Ascii.ascii_of_nat 10.

(** [cell.replace] with the global pattern for the quote character: every
    quote is doubled. *)
Fixpoint escape (cell : string) : string :=
  match cell with
  | EmptyString => EmptyString
  | String c rest =>
      if Ascii.eqb c quote
      then String quote (String quote (escape rest))
      else String c (escape rest)
  end.

(** The cell between quotes. *)
Definition quoted (cell : string) : string :=
  String quote (String.append (escape cell) (String quote EmptyString)).

(** [l.join(sep)] *)
Fixpoint join (sep : string) (l : list string) : string :=
  match l with
  | [] => EmptyString
  | x :: rest =>
      match rest with
      | [] => x
      | _ => String.append x (String.append sep (join sep rest))
      end
  end.

Definition headers : list string :=
  ["Name"; "Company"; "Email"; "Phone"; "Intent Score"; "Source";
   "Source URL"].

(** One row of the file. *)
Definition line (cells : list string) : string :=
  join (String comma EmptyString) (map quoted cells).

(** The rows of the file, one per line. *)
Definition table (rows : list (list string)) : string :=
  join (String newline EmptyString) (map line rows).

Section Format.

(** [Math.round(score * 100).toString() + '%']: floating-point rounding
    and number printing, taken as given. *)
Variable percent : number -> string.

(** The cells of one lead. *)
Definition row (lead : Lead) : list string :=
  [ lead_name lead; company lead; or_else (email lead) "";
    or_else (phone lead) ""; percent (intent_score lead); source lead;
    or_else (source_url lead) "" ].

(** [csvContent] of [exportToCSV]. *)
Definition csvContent (ls : list Lead) : string :=
  join (String newline EmptyString)
       (join (String comma EmptyString) headers
          :: map (fun cells => join (String comma EmptyString)
                                    (map quoted cells))
                 (map row ls)).

End Format.

(** A reader of quoted comma-separated text, to read the export back:
    every cell opens with a quote; inside a cell a doubled quote is one
    quote; after the closing quote comes a comma (next cell), a line break
    (next row) or the end. *)
Inductive Reading : Type := Opening | Inside | Closing.

Fixpoint read (s : string) (st : Reading) (cell : string)
              (cells : list string) (rows : list (list string))
  : option (list (list string)) :=
  match s with
  | EmptyString =>
      match st with
      | Closing => Some (rows ++ [cells ++ [cell]])
      | _ => None
      end
  | String c rest =>
      match st with
      | Opening =>
          if Ascii.eqb c quote then read rest Inside EmptyString cells rows
          else None
      | Inside =>
          if Ascii.eqb c quote then read rest Closing cell cells rows
          else read rest Inside (String.append cell (String c EmptyString))
                    cells rows
      | Closing =>
          if Ascii.eqb c quote
          then read rest Inside
                    (String.append cell (String quote EmptyString)) cells rows
          else if Ascii.eqb c comma
          then read rest Opening EmptyString (cells ++ [cell]) rows
          else if Ascii.eqb c newline
          then read rest Opening EmptyString [] (rows ++ [cells ++ [cell]])
          else None
      end
  end.

(** The text read from its first character. *)
Definition read_table (s : string) : option (list (list string)) :=
  read s Opening EmptyString [] [].

(** A stand-in for the score's formatting in the examples. *)
Definition sample_percent (n : number) : string := "80%".

End ResultsExport.

(** ** What the service is asked for *)

(** A level the service accepts: a finite number between 0 and 1. *)
Definition in_unit_interval (n : number) : Prop :=
  match n with
  | Finite q => (0 <= q <= 1)%Q
  | _ => False
  end.

(** The quality levels of the creation requests among [rs], in order. *)
Definition creation_levels (rs : list Request) : list number :=
  flat_map (fun r => match r with
                     | POST_searches _ quality _ => [quality]
                     | _ => []
                     end) rs.

(** How often the logger was given the event [e]. *)
Definition count_event (e : string) (l : list LogEntry) : nat :=
  length (filter (fun entry => String.eqb (event entry) e) l).

(** The log tells how many timers run: every [polling_started] that is
    not followed by its [polling_stopped] is a timer still active. *)
Definition log_matches_timers (w : World) : Prop :=
  count_event "polling_started" (log w) =
  (count_event "polling_stopped" (log w) + length (timers w))%nat.

(** No call of [setQualityLevel] among [evs] passes NaN. *)
Definition never_sets_NaN (evs : list Event) : Prop :=
  Forall (fun ev => ev <> CallSetQualityLevel NaN) evs.

(** ** Frames: which parts of the state an action leaves alone *)

(** The mirror of the current run. *)
Definition same_run (s s' : SearchState) : Prop :=
  currentSearch s' = currentSearch s /\ status s' = status s /\
  progress s' = progress s /\ sources s' = sources s /\
  leads s' = leads s.

(** What the user holds independently of a run, and the history. *)
Definition same_parameters (s s' : SearchState) : Prop :=
  qualityLevel s' = qualityLevel s /\ manualOverride s' = manualOverride s /\
  searchHistory s' = searchHistory s.

(** Everything around the store but the log. *)
Definition same_surroundings (w w' : World) : Prop :=
  timers w' = timers w /\ next_timer w' = next_timer w /\
  pending w' = pending w /\ requests w' = requests w.

(** The state [startSearch] sets before anything is sent. *)
Definition cleared_for_search (s : SearchState) : Prop :=
  status s = searching /\ progress s = Finite 0 /\ sources s = [] /\
  leads s = [] /\ error_ s = None /\ currentSearch s = None.

(** ** Proof tools *)

Ltac open_world w :=
  let s := fresh "s" in
  destruct w as [s ? ? ? ? ?]; destruct s.

Ltac run_actions :=
  unfold exec, reset, startSearch, startSearch_settled, cancelSearch,
    cancelSearch_settled, pollSearchStatus, pollSearchStatus_settled,
    setQualityLevel, setManualOverride, setError, fetchSearchHistory,
    fetchSearchHistory_settled, startPolling, stopPolling, try_catch, bind,
    ret, throw, get, set, logger, setInterval, clearInterval, fetchWithAuth,
    merge;
  simpl.

Lemma Math_clamp_finite (x : Q) :
  Math_max (Finite 0) (Math_min (Finite 1) (Finite x)) =
  Finite (Qmax 0 (Qmin 1 x)).
Proof.
  unfold Math_max, Math_min, lt, Qmax, Qmin, GenericMinMax.gmax,
    GenericMinMax.gmin.
  rewrite <- (Qcompare_antisym x 1).
  destruct (x ?= 1)%Q eqn:E1; simpl.
  - reflexivity.
  - destruct (0 ?= x)%Q; reflexivity.
  - reflexivity.
Qed.

(** ** Quality level *)

(** C6: [setQualityLevel x], for a real [x], stores exactly
    [max 0 (min 1 x)] in [qualityLevel] and changes no other field of the
    state, nor anything around the store; [setQualityLevel 1.4] stores [1]
    and [setQualityLevel (-0.2)] stores [0]. *)
Theorem setQualityLevel_clamps :
  forall (x : Q) (w : World),
    let w' := exec (setQualityLevel (Finite x)) w in
    qualityLevel (store w') = Finite (Qmax 0 (Qmin 1 x)) /\
    same_run (store w) (store w') /\
    error_ (store w') = error_ (store w) /\
    manualOverride (store w') = manualOverride (store w) /\
    pollingInterval (store w') = pollingInterval (store w) /\
    searchHistory (store w') = searchHistory (store w) /\
    same_surroundings w w' /\ log w' = log w /\
    qualityLevel (store (exec (setQualityLevel (Finite (14 # 10))) w)) =
      Finite 1 /\
    qualityLevel (store (exec (setQualityLevel (Finite (- 2 # 10))) w)) =
      Finite 0.
Proof.
  intros x w w'. subst w'.
  unfold same_run, same_surroundings.
  split; [exact (Math_clamp_finite x) |].
  repeat split; reflexivity.
Qed.

(** The stored level, case by case. *)
Lemma setQualityLevel_cases (x : Q) (w : World) :
  exists q,
    qualityLevel (store (exec (setQualityLevel (Finite x)) w)) = Finite q /\
    (0 <= q <= 1)%Q /\
    ((0 <= x <= 1)%Q -> q == x) /\
    ((x < 0)%Q -> q == 0) /\
    ((1 < x)%Q -> q == 1).
Proof.
  exists (Qmax 0 (Qmin 1 x)).
  split.
  - exact (Math_clamp_finite x).
  - repeat split.
    + apply Q.le_max_l.
    + apply Q.max_lub; [discriminate | apply Q.le_min_l].
    + intros [H0 H1]. rewrite (Q.min_r 1 x H1). apply Q.max_r, H0.
    + intros H. apply Q.max_l. rewrite Q.min_r.
      * apply Qlt_le_weak, H.
      * apply Qlt_le_weak. apply Qlt_trans with 0; [exact H | reflexivity].
    + intros H. rewrite (Q.min_l 1 x (Qlt_le_weak _ _ H)).
      apply Q.max_r. discriminate.
Qed.

(** ** Polling control *)

Lemma stopPolling_store (w : World) :
  store (exec stopPolling w) = assign (store w) (pollingInterval_is None) /\
  pollingInterval (store (exec stopPolling w)) = None.
Proof.
  open_world w. destruct pollingInterval0; run_actions; split; reflexivity.
Qed.

Lemma stopPolling_frame (w : World) :
  same_run (store w) (store (exec stopPolling w)) /\
  same_parameters (store w) (store (exec stopPolling w)) /\
  error_ (store (exec stopPolling w)) = error_ (store w) /\
  next_timer (exec stopPolling w) = next_timer w /\
  pending (exec stopPolling w) = pending w /\
  requests (exec stopPolling w) = requests w.
Proof.
  unfold same_run, same_parameters.
  open_world w. destruct pollingInterval0; run_actions;
    repeat split; reflexivity.
Qed.

Lemma clear_removes (h : TimerId) (ts : list (TimerId * string)) :
  ~ In h (map fst (filter (fun t => negb (Pos.eqb (fst t) h)) ts)).
Proof.
  intros Hin. apply in_map_iff in Hin. destruct Hin as [t [Ht Hin]].
  apply filter_In in Hin. destruct Hin as [_ Hne].
  rewrite Ht, Pos.eqb_refl in Hne. discriminate.
Qed.

Lemma stopPolling_removes (h : TimerId) (w : World) :
  pollingInterval (store w) = Some h ->
  ~ In h (map fst (timers (exec stopPolling w))).
Proof.
  open_world w. simpl. intros ->. run_actions. apply clear_removes.
Qed.

(** Under the invariant the timer table is a singleton or empty. *)
Lemma timer_inv_shape (w : World) :
  timer_inv w ->
  match pollingInterval (store w) with
  | Some h => exists sid, timers w = [(h, sid)]
  | None => timers w = []
  end.
Proof.
  unfold timer_inv. destruct (pollingInterval (store w)) as [h|]; intros H.
  - destruct (timers w) as [|[h' sid] [|? ?]]; simpl in H; try discriminate.
    injection H as ->. exists sid. reflexivity.
  - destruct (timers w); [reflexivity | discriminate].
Qed.

Ltac use_inv H :=
  apply timer_inv_shape in H; simpl in H;
  match type of H with
  | exists _, _ => let sid := fresh "sid" in destruct H as [sid H]
  | _ => idtac
  end;
  subst.

Lemma stopPolling_inv (w : World) :
  timer_inv w ->
  timers (exec stopPolling w) = [] /\ timer_inv (exec stopPolling w).
Proof.
  intros H. open_world w. destruct pollingInterval0 as [h|]; use_inv H;
    unfold timer_inv; run_actions; rewrite ?Pos.eqb_refl; simpl;
    split; reflexivity.
Qed.

Lemma startPolling_inv (searchId : string) (w : World) :
  timer_inv w ->
  timers (exec (startPolling searchId) w) = [(next_timer w, searchId)] /\
  pollingInterval (store (exec (startPolling searchId) w)) =
    Some (next_timer w) /\
  timer_inv (exec (startPolling searchId) w).
Proof.
  intros H. open_world w. destruct pollingInterval0 as [h|]; use_inv H;
    unfold timer_inv; run_actions; rewrite ?Pos.eqb_refl; simpl;
    repeat split; reflexivity.
Qed.

Lemma settle_inv (n : nat) (w : World) : timer_inv w -> timer_inv (settle n w).
Proof. intros H. exact H. Qed.

Lemma step_inv (w : World) (ev : Event) : timer_inv w -> timer_inv (step w ev).
Proof.
  intros H. destruct ev; simpl.
  - (* startSearch *)
    open_world w. destruct pollingInterval0 as [h|]; use_inv H;
      unfold timer_inv; run_actions; rewrite ?Pos.eqb_refl; reflexivity.
  - (* cancelSearch *)
    open_world w. destruct currentSearch0;
      destruct pollingInterval0 as [h|]; use_inv H;
      unfold timer_inv; run_actions; rewrite ?Pos.eqb_refl; reflexivity.
  - exact H.
  - exact H.
  - exact H.
  - exact H.
  - apply startPolling_inv, H.
  - apply stopPolling_inv, H.
  - exact H.
  - (* reset *)
    open_world w. destruct pollingInterval0 as [h|]; use_inv H;
      unfold timer_inv; run_actions; rewrite ?Pos.eqb_refl; reflexivity.
  - destruct (timer_target handle w); exact H.
  - destruct (nth_error (pending w) n) as [[| |sid|]|]; try exact H;
      apply (settle_inv n) in H; revert H; generalize (settle n w);
      clear w; intros w H.
    + (* creation settles *)
      destruct r as [t|body|[search|t]];
        try (open_world w; exact H).
      open_world w. destruct pollingInterval0 as [h|]; use_inv H;
        unfold timer_inv; run_actions;
        destruct (result_status search); simpl;
        rewrite ?Pos.eqb_refl; reflexivity.
    + (* cancellation settles *)
      destruct r as [t|body|[search|t]]; open_world w; exact H.
    + (* poll settles *)
      destruct r as [t|body|[search|t]];
        try (open_world w; exact H).
      open_world w. destruct pollingInterval0 as [h|]; use_inv H;
        unfold timer_inv; run_actions;
        destruct (result_status search); simpl;
        rewrite ?Pos.eqb_refl; reflexivity.
  - destruct (nth_error (pending w) n) as [[| |sid|]|]; try exact H.
    destruct r as [t|body|[data|t]]; open_world w; exact H.
Qed.

Lemma run_inv (evs : list Event) (w : World) :
  timer_inv w -> timer_inv (run evs w).
Proof.
  revert w. induction evs as [|ev evs IH]; intros w H; simpl.
  - exact H.
  - apply IH, step_inv, H.
Qed.

(** C3: whatever calls are made, in whatever order, and however timers
    fire and fetches settle in between, at most one polling timer is
    active: [pollingInterval] is null exactly when no timer is active and
    names the one active timer otherwise.  [startPolling], the one action
    that creates a timer, leaves the timer it creates as the only one;
    [startSearch], [stopPolling] and [reset] leave none. *)
Theorem single_polling_timer :
  forall (evs : list Event),
    let w := run evs initialWorld in
    (length (timers w) <= 1)%nat /\
    (pollingInterval (store w) = None <-> timers w = []) /\
    (forall handle, pollingInterval (store w) = Some handle <->
                    map fst (timers w) = [handle]) /\
    (forall searchId,
        timers (exec (startPolling searchId) w) = [(next_timer w, searchId)] /\
        pollingInterval (store (exec (startPolling searchId) w)) =
          Some (next_timer w)) /\
    (forall clientProfileId,
        timers (exec (startSearch clientProfileId) w) = [] /\
        pollingInterval (store (exec (startSearch clientProfileId) w)) = None) /\
    timers (exec stopPolling w) = [] /\
    timers (exec reset w) = [].
Proof.
  intros evs w.
  assert (H : timer_inv w) by (apply run_inv; reflexivity).
  clearbody w.
  pose proof (timer_inv_shape w H) as Hs.
  split; [| split; [| split; [| split; [| split; [| split]]]]].
  - destruct (pollingInterval (store w)).
    + destruct Hs as [sid ->]. simpl. lia.
    + rewrite Hs. simpl. lia.
  - destruct (pollingInterval (store w)).
    + destruct Hs as [sid ->]. split; discriminate.
    + split; [intros _; exact Hs | reflexivity].
  - intros handle. unfold timer_inv in H. rewrite H.
    destruct (pollingInterval (store w)); split; intros E;
      try discriminate; injection E as ->; reflexivity.
  - intros searchId.
    destruct (startPolling_inv searchId w H) as [Ht [Hp _]].
    split; assumption.
  - intros clientProfileId.
    open_world w. destruct pollingInterval0 as [h|]; use_inv H;
      run_actions; rewrite ?Pos.eqb_refl; split; reflexivity.
  - apply stopPolling_inv, H.
  - open_world w. destruct pollingInterval0 as [h|]; use_inv H;
      run_actions; rewrite ?Pos.eqb_refl; reflexivity.
Qed.

(** ** Reset *)

(** C10: [reset] puts back the whole initial state: the run's mirror and
    the error are cleared, and so are the user's parameters
    ([qualityLevel] back to 0.7, [manualOverride] to null) and
    [searchHistory]; the timer the store held is no longer active. *)
Theorem reset_restores_initialState :
  forall (w : World),
    let w' := exec reset w in
    store w' = initialState /\
    currentSearch (store w') = None /\ status (store w') = idle /\
    progress (store w') = Finite 0 /\ sources (store w') = [] /\
    leads (store w') = [] /\ error_ (store w') = None /\
    qualityLevel (store w') = Finite (7 # 10) /\
    manualOverride (store w') = None /\
    searchHistory (store w') = [] /\
    pollingInterval (store w') = None /\
    (forall handle, pollingInterval (store w) = Some handle ->
                    ~ In handle (map fst (timers w'))) /\
    (timer_inv w -> timers w' = []).
Proof.
  intros w w'. subst w'.
  assert (Hs : store (exec reset w) = initialState).
  { open_world w. destruct pollingInterval0; run_actions; reflexivity. }
  rewrite Hs. repeat split; try reflexivity.
  - intros handle Hh.
    open_world w. simpl in Hh. subst. run_actions. apply clear_removes.
  - intros H.
    open_world w. destruct pollingInterval0 as [h|]; use_inv H;
      run_actions; rewrite ?Pos.eqb_refl; reflexivity.
Qed.

Lemma reset_restores_initialState_witness :
  pollingInterval (store polling_world) = Some 1%positive /\
  timer_inv polling_world /\
  qualityLevel (store (exec reset (exec (setQualityLevel (Finite (1 # 4)))
                                        polling_world))) = Finite (7 # 10) /\
  timers (exec reset polling_world) = [].
Proof.
  split; [reflexivity | split; [reflexivity | split]].
  - apply (reset_restores_initialState
             (exec (setQualityLevel (Finite (1 # 4))) polling_world)).
  - apply (reset_restores_initialState polling_world). reflexivity.
Defined.

(** ** Cancellation *)

(** C7: with no current run, [cancelSearch] sends no request, leaves the
    timers alone and changes no field of the state; it only logs a
    warning. *)
Theorem cancelSearch_without_run :
  forall (w : World),
    currentSearch (store w) = None ->
    let w' := exec cancelSearch w in
    store w' = store w /\
    timers w' = timers w /\ next_timer w' = next_timer w /\
    requests w' = requests w /\ pending w' = pending w /\
    log w' = log w ++ [{| level := warn; event := "cancel_search_no_active" |}].
Proof.
  intros w H w'. subst w'.
  open_world w. simpl in H. subst. run_actions.
  repeat split; reflexivity.
Qed.

Lemma cancelSearch_without_run_witness :
  currentSearch (store initialWorld) = None /\
  requests (exec cancelSearch initialWorld) = [] /\
  store (exec cancelSearch initialWorld) = initialState.
Proof.
  split; [reflexivity |].
  pose proof (cancelSearch_without_run initialWorld eq_refl) as H.
  simpl in H. destruct H as [Hs [_ [_ [Hr _]]]].
  split; [exact Hr | exact Hs].
Defined.

(** What the settled cancel request does, whatever ran in between. *)
Lemma cancelSearch_settled_ok (search : SearchResult) (w : World) :
  let w' := exec (cancelSearch_settled (Ok (Parsed search))) w in
  currentSearch (store w') = Some search /\
  status (store w') = cancelled /\
  progress (store w') = result_progress search /\
  sources (store w') = or_empty (result_sources search) /\
  leads (store w') = or_empty (result_leads search) /\
  error_ (store w') = error_ (store w) /\
  same_parameters (store w) (store w') /\
  pollingInterval (store w') = pollingInterval (store w) /\
  same_surroundings w w'.
Proof.
  unfold same_parameters, same_surroundings.
  open_world w. run_actions. repeat split; reflexivity.
Qed.

(** The part of [cancelSearch] that runs before the request is answered. *)
Lemma cancelSearch_sent (current : SearchResult) (w : World) :
  currentSearch (store w) = Some current ->
  let w1 := exec cancelSearch w in
  requests w1 = requests w ++ [POST_cancel (id current)] /\
  pending w1 = pending w ++ [AfterCancel] /\
  pollingInterval (store w1) = None /\
  (forall handle, pollingInterval (store w) = Some handle ->
                  ~ In handle (map fst (timers w1))) /\
  (timer_inv w -> timers w1 = []) /\
  same_run (store w) (store w1) /\
  same_parameters (store w) (store w1) /\
  error_ (store w1) = error_ (store w).
Proof.
  unfold same_run, same_parameters.
  intros H. open_world w. simpl in H. subst.
  destruct pollingInterval0 as [h|]; run_actions; repeat split;
    try reflexivity.
  - intros handle E. injection E as ->. apply clear_removes.
  - intros Hi. use_inv Hi. simpl. rewrite Pos.eqb_refl. reflexivity.
  - intros handle E. discriminate.
  - intros Hi. use_inv Hi. reflexivity.
Qed.

(** The fetch sent last is the last one waiting. *)
Lemma last_pending (w w1 : World) (k : Continuation) :
  pending w1 = pending w ++ [k] ->
  nth_error (pending w1) (length (pending w)) = Some k.
Proof.
  intros ->. rewrite nth_error_app2 by lia.
  rewrite Nat.sub_diag. reflexivity.
Qed.

(** C1: with a current run, when [cancelSearch] is called and its request
    succeeds, the status is [cancelled] whatever status the response
    carries, and [currentSearch], [progress], [sources] and [leads] are
    those of the response (an absent list read as empty). *)
Theorem cancelSearch_success_forces_cancelled :
  forall (w : World) (current search : SearchResult),
    currentSearch (store w) = Some current ->
    let w1 := step w CallCancelSearch in
    let w2 := step w1 (SearchFetchSettles (length (pending w))
                                          (Ok (Parsed search))) in
    requests w1 = requests w ++ [POST_cancel (id current)] /\
    status (store w2) = cancelled /\
    currentSearch (store w2) = Some search /\
    progress (store w2) = result_progress search /\
    sources (store w2) = or_empty (result_sources search) /\
    leads (store w2) = or_empty (result_leads search) /\
    pollingInterval (store w2) = None.
Proof.
  intros w current search H w1 w2.
  destruct (cancelSearch_sent current w H) as [Hr [Hp [Hi _]]].
  change (exec cancelSearch w) with w1 in Hr, Hp, Hi.
  assert (E : w2 = exec (cancelSearch_settled (Ok (Parsed search)))
                        (settle (length (pending w)) w1)).
  { subst w2. simpl. rewrite (last_pending w w1 AfterCancel Hp).
    reflexivity. }
  destruct (cancelSearch_settled_ok search (settle (length (pending w)) w1))
    as [Hc [Hst [Hpr [Hso [Hl [_ [_ [Hpi _]]]]]]]].
  rewrite <- E in Hc, Hst, Hpr, Hso, Hl, Hpi.
  repeat split; try assumption.
  rewrite Hpi. exact Hi.
Qed.

Lemma cancelSearch_success_forces_cancelled_witness :
  currentSearch (store polling_world)
    = Some (sample_result searching (Finite (1 # 2)) two_leads) /\
  let w := run [ CallCancelSearch;
                 SearchFetchSettles 0
                   (Ok (Parsed (sample_result searching (Finite (1 # 2))
                                              three_leads))) ]
               polling_world in
  status (store w) = cancelled /\ leads (store w) = three_leads.
Proof.
  split; [reflexivity |].
  pose proof (cancelSearch_success_forces_cancelled polling_world
                (sample_result searching (Finite (1 # 2)) two_leads)
                (sample_result searching (Finite (1 # 2)) three_leads)
                eq_refl) as H.
  simpl in H. destruct H as [_ [Hst [_ [_ [_ [Hl _]]]]]].
  split; [exact Hst | exact Hl].
Defined.

(** ** Polling *)

(** What a settled poll does with a parsed 2xx body, whatever ran in
    between. *)
Lemma pollSearchStatus_settled_ok (search : SearchResult) (w : World) :
  let w' := exec (pollSearchStatus_settled (Ok (Parsed search))) w in
  currentSearch (store w') = Some search /\
  status (store w') = result_status search /\
  progress (store w') = result_progress search /\
  sources (store w') = or_empty (result_sources search) /\
  leads (store w') = or_empty (result_leads search) /\
  error_ (store w') = error_message search /\
  same_parameters (store w) (store w') /\
  requests w' = requests w /\ pending w' = pending w /\
  (result_status search = searching ->
   timers w' = timers w /\
   pollingInterval (store w') = pollingInterval (store w)) /\
  (result_status search <> searching ->
   pollingInterval (store w') = None /\
   (forall handle, pollingInterval (store w) = Some handle ->
                   ~ In handle (map fst (timers w'))) /\
   (timer_inv w -> timers w' = [])).
Proof.
  unfold same_parameters.
  open_world w. run_actions.
  destruct (result_status search) eqn:E; simpl;
    destruct pollingInterval0 as [h|]; simpl;
    repeat split; try reflexivity; try discriminate;
    try (exfalso; congruence);
    try (intros handle Hh; inversion Hh; subst; apply clear_removes);
    try (intros Hi; use_inv Hi; simpl; rewrite ?Pos.eqb_refl; reflexivity).
Qed.

(** C2: a poll that succeeds replaces the mirror wholesale:
    [currentSearch], [status], [progress] and the whole [sources] and
    [leads] lists (and the error string) are those of the response, whatever
    the lists held before; the polling timer is cleared if and only if the
    status of the response is not [searching]. *)
Theorem pollSearchStatus_replaces_mirror :
  forall (w : World) (n : nat) (searchId : string) (search : SearchResult),
    nth_error (pending w) n = Some (AfterStatus searchId) ->
    let w' := step w (SearchFetchSettles n (Ok (Parsed search))) in
    currentSearch (store w') = Some search /\
    status (store w') = result_status search /\
    progress (store w') = result_progress search /\
    sources (store w') = or_empty (result_sources search) /\
    leads (store w') = or_empty (result_leads search) /\
    error_ (store w') = error_message search /\
    same_parameters (store w) (store w') /\
    (result_status search = searching ->
     timers w' = timers w /\
     pollingInterval (store w') = pollingInterval (store w)) /\
    (result_status search <> searching ->
     pollingInterval (store w') = None /\
     forall handle, pollingInterval (store w) = Some handle ->
                    ~ In handle (map fst (timers w'))) /\
    (forall handle,
        pollingInterval (store w) = Some handle ->
        timer_inv w ->
        (pollingInterval (store w') = None /\ timers w' = []
         <-> result_status search <> searching)).
Proof.
  intros w n searchId search Hn w'.
  assert (E : w' = exec (pollSearchStatus_settled (Ok (Parsed search)))
                        (settle n w)).
  { subst w'. simpl. rewrite Hn. reflexivity. }
  destruct (pollSearchStatus_settled_ok search (settle n w))
    as [Hc [Hst [Hpr [Hso [Hl [He [Hq [_ [_ [Hkeep Hstop]]]]]]]]]].
  rewrite <- E in Hc, Hst, Hpr, Hso, Hl, He, Hq, Hkeep, Hstop.
  change (store (settle n w)) with (store w) in *.
  change (timers (settle n w)) with (timers w) in *.
  repeat (split; [assumption |]).
  split.
  { intros Hne. destruct (Hstop Hne) as [Hp [Hr _]]. split; assumption. }
  intros handle Hh Hi. split.
  - intros [Hnone _] Hs. destruct (Hkeep Hs) as [_ Hp]. congruence.
  - intros Hne. destruct (Hstop Hne) as [Hp [_ Ht]].
    split; [exact Hp | exact (Ht Hi)].
Qed.

Lemma pollSearchStatus_replaces_mirror_witness :
  let w := step polling_world (TimerFires 1%positive) in
  nth_error (pending w) 0 = Some (AfterStatus "s1") /\
  pollingInterval (store w) = Some 1%positive /\
  timer_inv w /\
  let done := sample_result completed (Finite 1) three_leads in
  let w' := step w (SearchFetchSettles 0 (Ok (Parsed done))) in
  status (store w') = completed /\ leads (store w') = three_leads /\
  pollingInterval (store w') = None /\ timers w' = [].
Proof.
  intros w.
  split; [reflexivity | split; [reflexivity | split; [reflexivity |]]].
  intros done w'.
  pose proof (pollSearchStatus_replaces_mirror w 0 "s1" done eq_refl) as H.
  destruct H as [_ [Hst [_ [_ [Hl [_ [_ [_ [_ Hiff]]]]]]]]].
  split; [exact Hst | split; [exact Hl |]].
  apply (Hiff 1%positive eq_refl eq_refl). discriminate.
Defined.

(** C4: a poll whose request fails (the fetch rejects, the response is not
    2xx, or its body cannot be read) changes no field of the state and
    leaves the timers as they are: it is only logged, and the next tick of
    the running timer sends the next status request. *)
Theorem pollSearchStatus_failure_is_transient :
  forall (w : World) (n : nat) (searchId : string)
         (r : Fetched SearchResult),
    nth_error (pending w) n = Some (AfterStatus searchId) ->
    fetch_failed r = true ->
    let w' := step w (SearchFetchSettles n r) in
    store w' = store w /\
    timers w' = timers w /\ next_timer w' = next_timer w /\
    requests w' = requests w /\
    log w' = log w ++ [{| level := error_level;
                          event := "search_poll_error" |}] /\
    (forall handle target,
        timer_target handle w = Some target ->
        let w'' := step w' (TimerFires handle) in
        requests w'' = requests w ++ [GET_search target] /\
        In (AfterStatus target) (pending w'') /\
        store w'' = store w /\ timers w'' = timers w).
Proof.
  intros w n searchId r Hn Hf w'.
  assert (E : w' = exec (pollSearchStatus_settled r) (settle n w)).
  { subst w'. simpl. rewrite Hn. reflexivity. }
  assert (Hs : store w' = store w /\ timers w' = timers w /\
               next_timer w' = next_timer w /\ requests w' = requests w /\
               log w' = log w ++ [{| level := error_level;
                                     event := "search_poll_error" |}]).
  { rewrite E. clear E w' Hn.
    destruct r as [t|body|[search|t]]; try discriminate Hf;
      open_world w; run_actions; repeat split; reflexivity. }
  destruct Hs as [Hst [Ht [Hnt [Hr Hl]]]].
  repeat (split; [assumption |]).
  intros handle target Htar w''.
  assert (Htar' : timer_target handle w' = Some target).
  { unfold timer_target in *. rewrite Ht. exact Htar. }
  subst w''. simpl. rewrite Htar'.
  unfold exec, pollSearchStatus, fetchWithAuth. simpl.
  rewrite Hr, Hst, Ht.
  repeat split; try reflexivity.
  apply in_or_app. right. left. reflexivity.
Qed.

Lemma pollSearchStatus_failure_is_transient_witness :
  let w := step polling_world (TimerFires 1%positive) in
  let r := @Rejected SearchResult (Error "Network down") in
  nth_error (pending w) 0 = Some (AfterStatus "s1") /\
  fetch_failed r = true /\
  timer_target 1%positive w = Some "s1" /\
  let w' := step w (SearchFetchSettles 0 r) in
  status (store w') = searching /\ leads (store w') = two_leads /\
  requests (step w' (TimerFires 1%positive))
    = requests w ++ [GET_search "s1"].
Proof.
  intros w r.
  split; [reflexivity | split; [reflexivity | split; [reflexivity |]]].
  intros w'.
  pose proof (pollSearchStatus_failure_is_transient w 0 "s1" r
                eq_refl eq_refl) as H.
  destruct H as [Hst [_ [_ [_ [_ Hnext]]]]].
  destruct (Hnext 1%positive "s1" eq_refl) as [Hreq _].
  fold w' in Hst. rewrite Hst.
  split; [reflexivity | split; [reflexivity | exact Hreq]].
Defined.

(** ** Starting a search *)

(** The part of [startSearch] that runs before the request is answered. *)
Lemma startSearch_sent (clientProfileId : string) (w : World) :
  let w1 := exec (startSearch clientProfileId) w in
  let request := POST_searches clientProfileId (qualityLevel (store w))
                               (manualOverride (store w)) in
  cleared_for_search (store w1) /\
  pollingInterval (store w1) = None /\
  same_parameters (store w) (store w1) /\
  pending w1 = pending w ++ [AfterCreate] /\
  requests w1 = requests w ++ [request] /\
  (exists w0, cleared_for_search (store w0) /\ requests w0 = requests w /\
              w1 = exec (fetchWithAuth request AfterCreate) w0) /\
  (forall handle, pollingInterval (store w) = Some handle ->
                  ~ In handle (map fst (timers w1))) /\
  (timer_inv w -> timers w1 = []).
Proof.
  unfold cleared_for_search, same_parameters.
  open_world w. destruct pollingInterval0 as [h|]; run_actions.
  - repeat split; try reflexivity.
    + eexists {| store := _; requests := requests0 |}. simpl.
      repeat split; reflexivity.
    + intros handle E. injection E as ->. apply clear_removes.
    + intros Hi. use_inv Hi. simpl. rewrite Pos.eqb_refl. reflexivity.
  - repeat split; try reflexivity.
    + eexists {| store := _; requests := requests0 |}. simpl.
      repeat split; reflexivity.
    + intros handle E. discriminate.
    + intros Hi. use_inv Hi. reflexivity.
Qed.

(** The message of what a non-2xx response makes the action throw. *)
Lemma thrown_for_message {A : Type} (body : Json JsonValue)
                         (generic : string) :
  message_of (thrown_for (json_or_empty body) generic) generic =
  failure_message (@NotOk A body) generic.
Proof.
  destruct body as [[| b | n text | s | items | members] | t];
    try reflexivity.
  unfold thrown_for, failure_message, json_or_empty, property.
  destruct (member "detail" members) as [d|]; [| reflexivity].
  destruct (truthy d); [| reflexivity].
  destruct (ToString d); reflexivity.
Qed.

(** What [startSearch] does when its request has failed, whatever ran in
    between. *)
Lemma startSearch_settled_failed (r : Fetched SearchResult) (w : World) :
  fetch_failed r = true ->
  let w' := exec (startSearch_settled r) w in
  status (store w') = error /\
  error_ (store w') = Some (failure_message r "Failed to start search") /\
  currentSearch (store w') = currentSearch (store w) /\
  progress (store w') = progress (store w) /\
  sources (store w') = sources (store w) /\
  leads (store w') = leads (store w) /\
  same_parameters (store w) (store w') /\
  pollingInterval (store w') = pollingInterval (store w) /\
  same_surroundings w w'.
Proof.
  unfold same_parameters, same_surroundings.
  intros Hf. destruct r as [t|body|[search|t]]; try discriminate Hf;
    try rewrite <- (thrown_for_message body);
    open_world w; run_actions; repeat split; reflexivity.
Qed.

(** What [cancelSearch] does when its request has failed, whatever ran in
    between. *)
Lemma cancelSearch_settled_failed (r : Fetched SearchResult) (w : World) :
  fetch_failed r = true ->
  let w' := exec (cancelSearch_settled r) w in
  error_ (store w') = Some (failure_message r "Failed to cancel search") /\
  same_run (store w) (store w') /\
  same_parameters (store w) (store w') /\
  pollingInterval (store w') = pollingInterval (store w) /\
  same_surroundings w w'.
Proof.
  unfold same_run, same_parameters, same_surroundings.
  intros Hf. destruct r as [t|body|[search|t]]; try discriminate Hf;
    try rewrite <- (thrown_for_message body);
    open_world w; run_actions; repeat split; reflexivity.
Qed.

(** The stored message on sample failures: a network error, a thrown
    value that is no error, a textual [detail], an empty or missing one,
    an unreadable body, the body [null], a validation error whose [detail]
    is a list of objects, a numeric [detail], and a [detail] that cannot
    be turned into a string. *)
Lemma failure_message_cases {A : Type} (generic : string) :
  (forall m, failure_message (@Rejected A (Error m)) generic = m) /\
  failure_message (@Rejected A NotAnError) generic = generic /\
  (forall c m, failure_message
                 (@NotOk A (Parsed (JObject
                    [("detail", JString (String c m))]))) generic
               = String c m) /\
  failure_message (@NotOk A (Parsed (JObject [("detail", JString "")])))
                  generic = generic /\
  failure_message (@NotOk A (Parsed (JObject [("detail", JNull)])))
                  generic = generic /\
  failure_message (@NotOk A (Parsed (JObject []))) generic = generic /\
  failure_message (@NotOk A (Parsed (JString "Bad Gateway"))) generic
    = generic /\
  (forall t, failure_message (@NotOk A (Unparsed t)) generic = generic) /\
  failure_message (@NotOk A (Parsed JNull)) generic
    = "Cannot read properties of null (reading 'detail')" /\
  failure_message
    (@NotOk A (Parsed (JObject
       [("detail", JArray [JObject [("msg", JString "field required")]])])))
    generic = "[object Object]" /\
  failure_message
    (@NotOk A (Parsed (JObject [("detail", JArray [])]))) generic = "" /\
  (forall text,
      failure_message
        (@NotOk A (Parsed (JObject [("detail", JNumber (Finite 404) text)])))
        generic = text) /\
  failure_message
    (@NotOk A (Parsed (JObject
       [("detail", JObject [("toString", JString "x")])]))) generic
    = "Cannot convert object to primitive value" /\
  (forall m, failure_message (@Ok A (Unparsed (Error m))) generic = m).
Proof. repeat split; reflexivity. Qed.

(** C9: [startSearch] sets [status] to [searching] and [progress] to 0 and
    clears [sources], [leads], the error and [currentSearch] at once, before
    its request is sent; when the request then fails, the results of the
    previous run are gone: the state is [error] with no leads, no sources
    and no current search. *)
Theorem startSearch_discards_previous_run :
  forall (w : World) (clientProfileId : string) (r : Fetched SearchResult),
    fetch_failed r = true ->
    let request := POST_searches clientProfileId (qualityLevel (store w))
                                 (manualOverride (store w)) in
    let w1 := step w (CallStartSearch clientProfileId) in
    let w2 := step w1 (SearchFetchSettles (length (pending w)) r) in
    cleared_for_search (store w1) /\
    pending w1 = pending w ++ [AfterCreate] /\
    (exists w0, cleared_for_search (store w0) /\ requests w0 = requests w /\
                w1 = exec (fetchWithAuth request AfterCreate) w0) /\
    status (store w2) = error /\
    leads (store w2) = [] /\ sources (store w2) = [] /\
    currentSearch (store w2) = None /\ progress (store w2) = Finite 0.
Proof.
  intros w clientProfileId r Hf request w1 w2.
  destruct (startSearch_sent clientProfileId w)
    as [Hc [_ [_ [Hp [_ [Hw0 _]]]]]].
  change (exec (startSearch clientProfileId) w) with w1 in Hc, Hp, Hw0.
  assert (E : w2 = exec (startSearch_settled r)
                        (settle (length (pending w)) w1)).
  { subst w2. simpl. rewrite (last_pending w w1 AfterCreate Hp).
    reflexivity. }
  destruct (startSearch_settled_failed r (settle (length (pending w)) w1) Hf)
    as [Hst [_ [Hcs [Hpr [Hso [Hl _]]]]]].
  rewrite <- E in Hst, Hcs, Hpr, Hso, Hl.
  change (store (settle (length (pending w)) w1)) with (store w1) in *.
  destruct Hc as [c1 [c2 [c3 [c4 [c5 c6]]]]].
  split; [repeat split; assumption |].
  split; [exact Hp |].
  split; [exact Hw0 |].
  split; [exact Hst |].
  rewrite Hl, Hso, Hcs, Hpr. repeat split; assumption.
Qed.

Lemma startSearch_discards_previous_run_witness :
  let r := @NotOk SearchResult
             (Parsed (JObject [("detail", JString "quota exceeded")])) in
  fetch_failed r = true /\
  leads (store polling_world) = two_leads /\
  let w2 := run [CallStartSearch "p1"; SearchFetchSettles 0 r] polling_world in
  status (store w2) = error /\ leads (store w2) = [] /\
  currentSearch (store w2) = None.
Proof.
  intros r.
  split; [reflexivity | split; [reflexivity |]].
  pose proof (startSearch_discards_previous_run polling_world "p1" r eq_refl)
    as H.
  destruct H as [_ [_ [_ [Hst [Hl [_ [Hc _]]]]]]].
  split; [exact Hst | split; [exact Hl | exact Hc]].
Defined.

(** C5 as worded does not hold: a creation request that rejects with an
    [Error] stores that error's own message, which is neither a [detail]
    nor the generic message. *)
Lemma startSearch_rejection_message :
  let r := @Rejected SearchResult (Error "Network down") in
  let w2 := run [CallStartSearch "p1"; SearchFetchSettles 0 r] initialWorld in
  fetch_failed r = true /\
  status (store w2) = error /\
  error_ (store w2) = Some "Network down" /\
  error_ (store w2) <> Some (detail_or_generic r "Failed to start search").
Proof.
  repeat split; try reflexivity. discriminate.
Qed.

(** C5, as the store has it: when the creation request fails, the status
    is [error] and no polling is started; the stored error string is the
    message of what reaches the [catch] block ([failure_message]).  For a
    rejected fetch or an unreadable 2xx body that is the thrown error's own
    message, or 'Failed to start search' when the thrown value is not an
    [Error].  For a non-2xx response it is 'Failed to start search' when
    the body is unreadable, is not an object, or has no truthy [detail];
    the truthy [detail] as a string otherwise (itself when it is a string,
    [[object Object]] for an object or a one-element list of one); and
    the message of the TypeError when the body is [null] or the [detail]
    cannot be turned into a string. *)
Theorem startSearch_failure_sets_error :
  forall (w : World) (clientProfileId : string) (r : Fetched SearchResult),
    fetch_failed r = true ->
    let w1 := step w (CallStartSearch clientProfileId) in
    let w2 := step w1 (SearchFetchSettles (length (pending w)) r) in
    status (store w2) = error /\
    error_ (store w2) = Some (failure_message r "Failed to start search") /\
    pollingInterval (store w2) = None /\
    timers w2 = timers w1 /\
    requests w2 = requests w1 /\
    (timer_inv w -> timers w2 = []).
Proof.
  intros w clientProfileId r Hf w1 w2.
  destruct (startSearch_sent clientProfileId w)
    as [_ [Hpi [_ [Hp [_ [_ [_ Hinv]]]]]]].
  change (exec (startSearch clientProfileId) w) with w1 in Hpi, Hp, Hinv.
  assert (E : w2 = exec (startSearch_settled r)
                        (settle (length (pending w)) w1)).
  { subst w2. simpl. rewrite (last_pending w w1 AfterCreate Hp).
    reflexivity. }
  destruct (startSearch_settled_failed r (settle (length (pending w)) w1) Hf)
    as [Hst [He [_ [_ [_ [_ [_ [Hp2 [Ht [_ [_ Hr]]]]]]]]]]].
  rewrite <- E in Hst, He, Hp2, Ht, Hr.
  change (store (settle (length (pending w)) w1)) with (store w1) in *.
  change (timers (settle (length (pending w)) w1)) with (timers w1) in *.
  change (requests (settle (length (pending w)) w1)) with (requests w1) in *.
  repeat (split; [assumption |]).
  split; [rewrite Hp2; exact Hpi |].
  repeat (split; [assumption |]).
  intros Hi. rewrite Ht. apply Hinv, Hi.
Qed.

Lemma startSearch_failure_sets_error_witness :
  let r := @NotOk SearchResult
             (Parsed (JObject [("detail", JString "quota exceeded")])) in
  fetch_failed r = true /\
  timer_inv polling_world /\
  let w2 := run [CallStartSearch "p1"; SearchFetchSettles 0 r] polling_world in
  status (store w2) = error /\ error_ (store w2) = Some "quota exceeded" /\
  timers w2 = [].
Proof.
  intros r.
  split; [reflexivity | split; [reflexivity |]].
  pose proof (startSearch_failure_sets_error polling_world "p1" r eq_refl)
    as H.
  destruct H as [Hst [He [_ [_ [_ Ht]]]]].
  split; [exact Hst | split; [exact He | exact (Ht eq_refl)]].
Defined.

(** C8 as worded does not hold: a cancel request that rejects with an
    [Error] stores that error's own message, which is neither a [detail]
    nor the generic message; the run itself is left as it was. *)
Lemma cancelSearch_rejection_message :
  let r := @Rejected SearchResult (Error "Network down") in
  let w2 := run [CallCancelSearch; SearchFetchSettles 0 r] polling_world in
  fetch_failed r = true /\
  currentSearch (store polling_world) <> None /\
  status (store w2) = searching /\
  error_ (store w2) = Some "Network down" /\
  error_ (store w2) <> Some (detail_or_generic r "Failed to cancel search").
Proof.
  repeat split; try reflexivity; discriminate.
Qed.

(** C8, as the store has it: when the cancel request fails, only the error
    string is set; [status], [currentSearch], [progress], [sources] and
    [leads] keep their values and nothing is forced to [cancelled]; the
    polling timer was cleared before the request was sent and stays
    cleared.  The error string is the message of what reaches the [catch]
    block ([failure_message]).  For a rejected fetch or an unreadable 2xx
    body that is the thrown error's own message, or 'Failed to cancel
    search' when the thrown value is not an [Error].  For a non-2xx
    response it is 'Failed to cancel search' when the body is unreadable,
    is not an object, or has no truthy [detail]; the truthy [detail] as a
    string otherwise (itself when it is a string, [[object Object]] for
    an object or a one-element list of one); and the message of the
    TypeError when the body is [null] or the [detail] cannot be turned
    into a string. *)
Theorem cancelSearch_failure_keeps_run :
  forall (w : World) (current : SearchResult) (r : Fetched SearchResult),
    currentSearch (store w) = Some current ->
    fetch_failed r = true ->
    let w1 := step w CallCancelSearch in
    let w2 := step w1 (SearchFetchSettles (length (pending w)) r) in
    error_ (store w2) = Some (failure_message r "Failed to cancel search") /\
    same_run (store w) (store w2) /\
    same_parameters (store w) (store w2) /\
    requests w1 = requests w ++ [POST_cancel (id current)] /\
    pollingInterval (store w1) = None /\
    (forall handle, pollingInterval (store w) = Some handle ->
                    ~ In handle (map fst (timers w1))) /\
    (timer_inv w -> timers w1 = []) /\
    pollingInterval (store w2) = None /\ timers w2 = timers w1.
Proof.
  intros w current r Hc Hf w1 w2.
  destruct (cancelSearch_sent current w Hc)
    as [Hr [Hp [Hpi [Hrem [Hinv [Hrun [Hpar _]]]]]]].
  change (exec cancelSearch w) with w1 in Hr, Hp, Hpi, Hrem, Hinv, Hrun, Hpar.
  assert (E : w2 = exec (cancelSearch_settled r)
                        (settle (length (pending w)) w1)).
  { subst w2. simpl. rewrite (last_pending w w1 AfterCancel Hp).
    reflexivity. }
  destruct (cancelSearch_settled_failed r (settle (length (pending w)) w1) Hf)
    as [He [Hrun2 [Hpar2 [Hpi2 [Ht _]]]]].
  rewrite <- E in He, Hrun2, Hpar2, Hpi2, Ht.
  change (store (settle (length (pending w)) w1)) with (store w1) in *.
  change (timers (settle (length (pending w)) w1)) with (timers w1) in *.
  split; [exact He |].
  split.
  { unfold same_run in *.
    destruct Hrun as [a1 [a2 [a3 [a4 a5]]]].
    destruct Hrun2 as [b1 [b2 [b3 [b4 b5]]]].
    repeat split; congruence. }
  split.
  { unfold same_parameters in *.
    destruct Hpar as [a1 [a2 a3]]. destruct Hpar2 as [b1 [b2 b3]].
    repeat split; congruence. }
  repeat (split; [assumption |]).
  split; [rewrite Hpi2; exact Hpi | exact Ht].
Qed.

Lemma cancelSearch_failure_keeps_run_witness :
  let r := @NotOk SearchResult
             (Parsed (JObject [("detail", JString "already finished")])) in
  currentSearch (store polling_world)
    = Some (sample_result searching (Finite (1 # 2)) two_leads) /\
  fetch_failed r = true /\
  let w2 := run [CallCancelSearch; SearchFetchSettles 0 r] polling_world in
  error_ (store w2) = Some "already finished" /\
  status (store w2) = searching /\ leads (store w2) = two_leads /\
  timers w2 = [].
Proof.
  intros r.
  split; [reflexivity | split; [reflexivity |]].
  pose proof (cancelSearch_failure_keeps_run polling_world
                (sample_result searching (Finite (1 # 2)) two_leads) r
                eq_refl eq_refl) as H.
  destruct H as [He [[_ [Hst [_ [_ Hl]]]] [_ [_ [_ [_ [Hinv [_ Ht]]]]]]]].
  split; [exact He |].
  split; [exact Hst |].
  split; [exact Hl |].
  exact (eq_trans Ht (Hinv eq_refl)).
Defined.

(** ** The scenarios of the search page, run end to end *)

Example happy_path :
  let w := run [ TimerFires 1%positive;
                 SearchFetchSettles 0
                   (Ok (Parsed (sample_result completed (Finite 1)
                                              three_leads))) ]
               polling_world in
  status (store polling_world) = searching /\
  progress (store polling_world) = Finite (1 # 2) /\
  length (leads (store polling_world)) = 2%nat /\
  status (store w) = completed /\ length (leads (store w)) = 3%nat /\
  pollingInterval (store w) = None /\ timers w = [] /\
  requests (step w (TimerFires 1%positive)) = requests w.
Proof. vm_compute. repeat split; reflexivity. Qed.

Example cancelled_before_the_service_caught_up :
  let w := run [ CallCancelSearch;
                 TimerFires 1%positive;
                 SearchFetchSettles 0
                   (Ok (Parsed (sample_result searching (Finite (1 # 2))
                                              three_leads))) ]
               polling_world in
  status (store w) = cancelled /\ leads (store w) = three_leads /\
  timers w = [] /\
  requests w = [ POST_searches "p1" (Finite (7 # 10)) None;
                 GET_search "s1"; POST_cancel "s1" ].
Proof. vm_compute. repeat split; reflexivity. Qed.

Example quality_level_of_NaN :
  qualityLevel (store (exec (setQualityLevel NaN) initialWorld)) = NaN.
Proof. reflexivity. Qed.

(** ** Further properties of the store *)

Lemma reachable_inv (evs : list Event) : timer_inv (run evs initialWorld).
Proof. apply run_inv. reflexivity. Qed.

Lemma no_timer_no_tick (w : World) (handle : TimerId) :
  timers w = [] -> step w (TimerFires handle) = w.
Proof.
  intros H. simpl. unfold timer_target. rewrite H. reflexivity.
Qed.

(** What a settled creation does with a parsed 2xx body, whatever ran in
    between. *)
Lemma startSearch_settled_ok (search : SearchResult) (w : World) :
  let w' := exec (startSearch_settled (Ok (Parsed search))) w in
  currentSearch (store w') = Some search /\
  status (store w') = result_status search /\
  progress (store w') = result_progress search /\
  sources (store w') = or_empty (result_sources search) /\
  leads (store w') = or_empty (result_leads search) /\
  error_ (store w') = error_ (store w) /\
  same_parameters (store w) (store w') /\
  requests w' = requests w /\ pending w' = pending w /\
  (result_status search = searching ->
   timer_inv w ->
   timers w' = [(next_timer w, id search)] /\
   pollingInterval (store w') = Some (next_timer w)) /\
  (result_status search <> searching ->
   timers w' = timers w /\
   pollingInterval (store w') = pollingInterval (store w)).
Proof.
  unfold same_parameters.
  open_world w. run_actions.
  destruct (result_status search) eqn:E; simpl;
    destruct pollingInterval0 as [h|]; simpl;
    repeat split; try reflexivity; try discriminate;
    try (exfalso; congruence);
    try (match goal with
         | Hi : timer_inv _ |- _ =>
             use_inv Hi; simpl; rewrite ?Pos.eqb_refl; reflexivity
         end).
Qed.

(** X1: When the creation request succeeds, the mirror is seeded from the
    response and the error stays cleared; polling starts if and only if the
    response says [searching], with one timer that polls the search the
    response names; only the creation request has been sent so far. *)
Theorem startSearch_success_seeds_and_polls :
  forall (evs : list Event) (clientProfileId : string)
         (search : SearchResult),
    let w := run evs initialWorld in
    let w1 := step w (CallStartSearch clientProfileId) in
    let w2 := step w1 (SearchFetchSettles (length (pending w))
                                          (Ok (Parsed search))) in
    currentSearch (store w2) = Some search /\
    status (store w2) = result_status search /\
    progress (store w2) = result_progress search /\
    sources (store w2) = or_empty (result_sources search) /\
    leads (store w2) = or_empty (result_leads search) /\
    error_ (store w2) = None /\
    requests w2 = requests w ++
                  [POST_searches clientProfileId (qualityLevel (store w))
                                 (manualOverride (store w))] /\
    (result_status search = searching ->
     timers w2 = [(next_timer w, id search)] /\
     pollingInterval (store w2) = Some (next_timer w) /\
     timer_target (next_timer w) w2 = Some (id search)) /\
    (result_status search <> searching ->
     timers w2 = [] /\ pollingInterval (store w2) = None).
Proof.
  intros evs clientProfileId search w w1 w2.
  assert (Hinv : timer_inv w) by apply reachable_inv.
  destruct (startSearch_sent clientProfileId w)
    as [Hc [Hpi [_ [Hp [Hr [_ [_ Ht]]]]]]].
  change (exec (startSearch clientProfileId) w) with w1 in Hc, Hpi, Hp, Hr, Ht.
  specialize (Ht Hinv).
  assert (Hinv1 : timer_inv (settle (length (pending w)) w1)).
  { unfold timer_inv. simpl. rewrite Ht, Hpi. reflexivity. }
  assert (E : w2 = exec (startSearch_settled (Ok (Parsed search)))
                        (settle (length (pending w)) w1)).
  { subst w2. simpl. rewrite (last_pending w w1 AfterCreate Hp).
    reflexivity. }
  destruct (startSearch_settled_ok search (settle (length (pending w)) w1))
    as [H1 [H2 [H3 [H4 [H5 [H6 [_ [H8 [_ [Hs Hn]]]]]]]]]].
  rewrite <- E in H1, H2, H3, H4, H5, H6, H8, Hs, Hn.
  change (store (settle (length (pending w)) w1)) with (store w1) in *.
  change (timers (settle (length (pending w)) w1)) with (timers w1) in *.
  change (requests (settle (length (pending w)) w1)) with (requests w1) in *.
  change (next_timer (settle (length (pending w)) w1))
    with (next_timer w1) in *.
  assert (Hnt : next_timer w1 = next_timer w).
  { subst w1. clear. open_world w. destruct pollingInterval0;
      reflexivity. }
  destruct Hc as [_ [_ [_ [_ [He _]]]]].
  repeat (split; [assumption |]).
  split; [rewrite H6; exact He |].
  split; [rewrite H8; exact Hr |].
  split.
  - intros Hs'. destruct (Hs Hs' Hinv1) as [Ha Hb].
    rewrite Hnt in Ha, Hb.
    split; [exact Ha | split; [exact Hb |]].
    unfold timer_target. rewrite Ha. simpl. rewrite Pos.eqb_refl.
    reflexivity.
  - intros Hn'. destruct (Hn Hn') as [Ha Hb].
    split; [rewrite Ha; exact Ht | rewrite Hb; exact Hpi].
Qed.

Lemma startSearch_success_seeds_and_polls_witness :
  let w2 := run [ CallStartSearch "p1";
                  SearchFetchSettles 0
                    (Ok (Parsed (sample_result searching (Finite 0) []))) ]
                initialWorld in
  status (store w2) = searching /\
  timers w2 = [(1%positive, "s1")] /\
  timer_target 1%positive w2 = Some "s1".
Proof.
  pose proof (startSearch_success_seeds_and_polls [] "p1"
                (sample_result searching (Finite 0) [])) as H.
  destruct H as [_ [Hst [_ [_ [_ [_ [_ [Hs _]]]]]]]].
  destruct (Hs eq_refl) as [Ht [_ Htar]].
  split; [exact Hst | split; [exact Ht | exact Htar]].
Defined.

(** *** The quality level that reaches the service *)

Lemma clamp_NaN :
  Math_max (Finite 0) (Math_min (Finite 1) NaN) = NaN.
Proof. reflexivity. Qed.

Lemma clamp_in_unit_interval (level : number) :
  level <> NaN ->
  in_unit_interval (Math_max (Finite 0) (Math_min (Finite 1) level)).
Proof.
  intros H. destruct level as [|[|]|x].
  - contradiction.
  - simpl. split; discriminate.
  - simpl. split; discriminate.
  - rewrite Math_clamp_finite. simpl. split.
    + apply Q.le_max_l.
    + apply Q.max_lub; [discriminate | apply Q.le_min_l].
Qed.

(** One event changes the level only through [setQualityLevel] (to the
    clamped argument) or [reset] (to the default). *)
Lemma step_qualityLevel (w : World) (ev : Event) :
  qualityLevel (store (step w ev)) = qualityLevel (store w) \/
  (ev = CallReset /\ qualityLevel (store (step w ev)) = Finite (7 # 10)) \/
  (exists level,
      ev = CallSetQualityLevel level /\
      qualityLevel (store (step w ev)) =
        Math_max (Finite 0) (Math_min (Finite 1) level)).
Proof.
  destruct ev; simpl;
    try (left; open_world w; destruct pollingInterval0; reflexivity).
  - left. open_world w. destruct currentSearch0; destruct pollingInterval0;
      reflexivity.
  - right. right. eexists. split; reflexivity.
  - right. left. split; [reflexivity |].
    open_world w. destruct pollingInterval0; reflexivity.
  - left. destruct (timer_target handle w); reflexivity.
  - left. open_world w. simpl.
    destruct (nth_error pending0 n) as [[| |sid|]|]; try reflexivity;
      destruct r as [t|body|[search|t]]; try reflexivity;
      run_actions; destruct (result_status search);
      destruct pollingInterval0; reflexivity.
  - left. open_world w. simpl.
    destruct (nth_error pending0 n) as [[| |sid|]|]; try reflexivity;
      destruct r as [t|body|[data|t]]; reflexivity.
Qed.

(** One event sends at most one request, and a creation request carries
    the level the store holds at that moment. *)
Lemma step_requests (w : World) (ev : Event) :
  requests (step w ev) = requests w \/
  (exists r,
      requests (step w ev) = requests w ++ [r] /\
      creation_levels [r] = []) \/
  (exists r,
      requests (step w ev) = requests w ++ [r] /\
      creation_levels [r] = [qualityLevel (store w)]).
Proof.
  destruct ev; simpl;
    try (left; open_world w; destruct pollingInterval0; reflexivity).
  - right. right. open_world w. destruct pollingInterval0; run_actions;
      eexists; split; reflexivity.
  - open_world w. destruct currentSearch0 as [current|].
    + right. left. destruct pollingInterval0; run_actions;
        eexists; split; reflexivity.
    + left. reflexivity.
  - right. left. eexists; split; reflexivity.
  - right. left. eexists; split; reflexivity.
  - destruct (timer_target handle w).
    + right. left. eexists; split; reflexivity.
    + left. reflexivity.
  - left. open_world w. simpl.
    destruct (nth_error pending0 n) as [[| |sid|]|]; try reflexivity;
      destruct r as [t|body|[search|t]]; try reflexivity;
      run_actions; destruct (result_status search);
      destruct pollingInterval0; reflexivity.
  - left. open_world w. simpl.
    destruct (nth_error pending0 n) as [[| |sid|]|]; try reflexivity;
      destruct r as [t|body|[data|t]]; reflexivity.
Qed.

Lemma creation_levels_app (l l' : list Request) :
  creation_levels (l ++ l') = creation_levels l ++ creation_levels l'.
Proof. apply flat_map_app. Qed.

Lemma run_levels (P : number -> Prop) (evs : list Event) (w : World) :
  P (Finite (7 # 10)) ->
  Forall (fun ev => forall level,
              ev = CallSetQualityLevel level ->
              P (Math_max (Finite 0) (Math_min (Finite 1) level))) evs ->
  P (qualityLevel (store w)) ->
  Forall P (creation_levels (requests w)) ->
  P (qualityLevel (store (run evs w))) /\
  Forall P (creation_levels (requests (run evs w))).
Proof.
  intros Hd Hevs. revert w.
  induction Hevs as [|ev evs Hev _ IH]; intros w Hq Hr; simpl.
  - split; assumption.
  - apply IH.
    + destruct (step_qualityLevel w ev) as [E | [[_ E] | [level [Eev E]]]];
        rewrite E; [exact Hq | exact Hd | exact (Hev level Eev)].
    + destruct (step_requests w ev) as [E | [[r [E L]] | [r [E L]]]];
        rewrite E; [exact Hr | |];
        rewrite creation_levels_app, L; apply Forall_app; split;
        try exact Hr; [constructor | repeat constructor; exact Hq].
Qed.

(** X2: Whatever happens, the stored quality level is NaN or lies between 0
    and 1, and so does the level of every creation request sent; if no
    call of [setQualityLevel] passes NaN, both always lie between 0
    and 1. *)
Theorem quality_level_stays_clamped :
  forall (evs : list Event),
    let w := run evs initialWorld in
    (qualityLevel (store w) = NaN \/
     in_unit_interval (qualityLevel (store w))) /\
    Forall (fun level => level = NaN \/ in_unit_interval level)
           (creation_levels (requests w)) /\
    (never_sets_NaN evs ->
     in_unit_interval (qualityLevel (store w)) /\
     Forall in_unit_interval (creation_levels (requests w))).
Proof.
  intros evs w. subst w.
  assert (Hd : in_unit_interval (Finite (7 # 10))).
  { simpl. split; discriminate. }
  split; [| split].
  - apply (run_levels (fun level => level = NaN \/ in_unit_interval level)).
    + right. exact Hd.
    + apply Forall_forall. intros ev _ level _.
      destruct level as [|b|x]; [left; reflexivity | |];
        right; apply clamp_in_unit_interval; discriminate.
    + right. exact Hd.
    + constructor.
  - apply (run_levels (fun level => level = NaN \/ in_unit_interval level)).
    + right. exact Hd.
    + apply Forall_forall. intros ev _ level _.
      destruct level as [|b|x]; [left; reflexivity | |];
        right; apply clamp_in_unit_interval; discriminate.
    + right. exact Hd.
    + constructor.
  - intros Hn. apply (run_levels in_unit_interval).
    + exact Hd.
    + unfold never_sets_NaN in Hn.
      apply Forall_impl with (2 := Hn). intros ev Hev level E.
      apply clamp_in_unit_interval. intros ->. contradiction.
    + exact Hd.
    + constructor.
Qed.

Lemma quality_level_stays_clamped_witness :
  let evs := [ CallSetQualityLevel (Finite (14 # 10));
               CallStartSearch "p1";
               CallSetQualityLevel (Infinity true);
               CallStartSearch "p2" ] in
  never_sets_NaN evs /\
  creation_levels (requests (run evs initialWorld)) = [Finite 1; Finite 0] /\
  Forall in_unit_interval (creation_levels (requests (run evs initialWorld))).
Proof.
  intros evs.
  assert (Hn : never_sets_NaN evs).
  { repeat constructor; discriminate. }
  split; [exact Hn | split; [reflexivity |]].
  destruct (quality_level_stays_clamped evs) as [_ [_ H]].
  apply H. exact Hn.
Defined.

(** Once the fetch sent last has settled, the fetches that were waiting
    before it are waiting still, in the same places. *)
Lemma settle_last_pending (w w1 : World) (k : Continuation) :
  pending w1 = pending w ++ [k] ->
  pending (settle (length (pending w)) w1) = pending w.
Proof.
  intros H. unfold settle. cbn [pending]. rewrite H.
  rewrite firstn_app, Nat.sub_diag, firstn_all.
  rewrite skipn_all2 by (rewrite length_app; simpl; lia).
  cbn [firstn]. rewrite !app_nil_r. reflexivity.
Qed.

(** *** History *)


(** *** When polling stops *)

(** X4: Once a poll has brought a status other than [searching], no tick of
    any timer does anything: no further status request is sent. *)
Theorem terminal_poll_ends_polling :
  forall (evs : list Event) (n : nat) (searchId : string)
         (search : SearchResult) (handle : TimerId),
    let w := run evs initialWorld in
    nth_error (pending w) n = Some (AfterStatus searchId) ->
    result_status search <> searching ->
    let w' := step w (SearchFetchSettles n (Ok (Parsed search))) in
    timers w' = [] /\ step w' (TimerFires handle) = w'.
Proof.
  intros evs n searchId search handle w Hn Hne w'.
  assert (Hinv : timer_inv w) by apply reachable_inv.
  assert (E : w' = exec (pollSearchStatus_settled (Ok (Parsed search)))
                        (settle n w)).
  { subst w'. simpl. rewrite Hn. reflexivity. }
  destruct (pollSearchStatus_settled_ok search (settle n w))
    as [_ [_ [_ [_ [_ [_ [_ [_ [_ [_ Hstop]]]]]]]]]].
  destruct (Hstop Hne) as [_ [_ Ht]].
  rewrite <- E in Ht. specialize (Ht (settle_inv n w Hinv)).
  split; [exact Ht | apply no_timer_no_tick, Ht].
Qed.

Lemma terminal_poll_ends_polling_witness :
  let evs := [ CallStartSearch "p1";
               SearchFetchSettles 0
                 (Ok (Parsed (sample_result searching (Finite 0) [])));
               TimerFires 1%positive ] in
  let done := sample_result completed (Finite 1) three_leads in
  let w' := step (run evs initialWorld)
                 (SearchFetchSettles 0 (Ok (Parsed done))) in
  nth_error (pending (run evs initialWorld)) 0 = Some (AfterStatus "s1") /\
  result_status done <> searching /\
  requests (step w' (TimerFires 1%positive)) = requests w'.
Proof.
  intros evs done w'.
  assert (Hne : result_status done <> searching) by discriminate.
  split; [reflexivity | split; [exact Hne |]].
  destruct (terminal_poll_ends_polling evs 0 "s1" done 1%positive
              eq_refl Hne) as [_ H].
  fold w' in H. rewrite H. reflexivity.
Defined.

(** X5: From the moment [cancelSearch] is called for a current run, before its
    request is answered, no tick of any timer sends a status request. *)
Theorem cancelSearch_ends_polling_at_once :
  forall (evs : list Event) (current : SearchResult) (handle : TimerId),
    let w := run evs initialWorld in
    currentSearch (store w) = Some current ->
    let w1 := step w CallCancelSearch in
    timers w1 = [] /\
    pending w1 = pending w ++ [AfterCancel] /\
    step w1 (TimerFires handle) = w1.
Proof.
  intros evs current handle w Hc w1.
  assert (Hinv : timer_inv w) by apply reachable_inv.
  destruct (cancelSearch_sent current w Hc) as [_ [Hp [_ [_ [Ht _]]]]].
  specialize (Ht Hinv).
  change (exec cancelSearch w) with w1 in Hp, Ht.
  split; [exact Ht | split; [exact Hp | apply no_timer_no_tick, Ht]].
Qed.

Lemma cancelSearch_ends_polling_at_once_witness :
  let evs := [ CallStartSearch "p1";
               SearchFetchSettles 0
                 (Ok (Parsed (sample_result searching (Finite 0) []))) ] in
  let w := run evs initialWorld in
  currentSearch (store w) = Some (sample_result searching (Finite 0) []) /\
  timers w = [(1%positive, "s1")] /\
  requests (step (step w CallCancelSearch) (TimerFires 1%positive))
    = requests (step w CallCancelSearch).
Proof.
  intros evs w.
  split; [reflexivity | split; [reflexivity |]].
  destruct (cancelSearch_ends_polling_at_once evs
              (sample_result searching (Finite 0) []) 1%positive eq_refl)
    as [_ [_ H]].
  fold w in H. rewrite H. reflexivity.
Defined.

(** X6: [stopPolling] with no timer held changes nothing, not even the log,
    and stopping twice is the same as stopping once. *)
Theorem stopPolling_idempotent :
  forall (w : World),
    exec stopPolling (exec stopPolling w) = exec stopPolling w /\
    (pollingInterval (store w) = None -> exec stopPolling w = w).
Proof.
  intros w. open_world w. destruct pollingInterval0 as [h|]; split;
    try reflexivity; discriminate.
Qed.

Lemma stopPolling_idempotent_witness :
  pollingInterval (store initialWorld) = None /\
  exec stopPolling initialWorld = initialWorld /\
  log (exec stopPolling (exec stopPolling polling_world))
    = log (exec stopPolling polling_world).
Proof.
  split; [reflexivity |].
  destruct (stopPolling_idempotent initialWorld) as [_ H].
  split; [exact (H eq_refl) |].
  destruct (stopPolling_idempotent polling_world) as [H' _].
  rewrite H'. reflexivity.
Defined.

Lemma startPolling_frame (searchId : string) (w : World) :
  next_timer (exec (startPolling searchId) w) = Pos.succ (next_timer w) /\
  requests (exec (startPolling searchId) w) = requests w /\
  pending (exec (startPolling searchId) w) = pending w.
Proof.
  open_world w. destruct pollingInterval0; repeat split; reflexivity.
Qed.

Lemma tick_polls (w : World) (handle : TimerId) (searchId : string) :
  timers w = [(handle, searchId)] ->
  requests (step w (TimerFires handle)) = requests w ++ [GET_search searchId].
Proof.
  intros H. cbn [step]. unfold timer_target. rewrite H.
  cbn [find fst]. rewrite Pos.eqb_refl. reflexivity.
Qed.

(** X7: Starting to poll a second search replaces the first timer: only the
    second search is polled, and a late tick of the first handle sends
    nothing. *)
Theorem startPolling_replaces_timer :
  forall (evs : list Event) (first second : string),
    let w := run evs initialWorld in
    let w2 := run [CallStartPolling first; CallStartPolling second] w in
    let old := next_timer w in
    let new := Pos.succ (next_timer w) in
    timers w2 = [(new, second)] /\
    pollingInterval (store w2) = Some new /\
    step w2 (TimerFires old) = w2 /\
    requests (step w2 (TimerFires new)) = requests w ++ [GET_search second].
Proof.
  intros evs first second w w2 old new.
  assert (Hinv : timer_inv w) by apply reachable_inv.
  destruct (startPolling_inv first w Hinv) as [_ [_ Hinv1]].
  destruct (startPolling_frame first w) as [Hn1 [Hr1 _]].
  destruct (startPolling_inv second _ Hinv1) as [Ht2 [Hp2 _]].
  destruct (startPolling_frame second (exec (startPolling first) w))
    as [_ [Hr2 _]].
  rewrite Hn1 in Ht2, Hp2. rewrite Hr1 in Hr2.
  change (exec (startPolling second) (exec (startPolling first) w))
    with w2 in Ht2, Hp2, Hr2.
  fold new in Ht2, Hp2.
  split; [exact Ht2 | split; [exact Hp2 | split]].
  - cbn [step]. unfold timer_target. rewrite Ht2. cbn [find fst].
    assert (Hd : Pos.eqb new old = false).
    { apply Pos.eqb_neq. intros E. apply (Pos.succ_discr old).
      symmetry. exact E. }
    rewrite Hd. reflexivity.
  - rewrite (tick_polls w2 new second Ht2), Hr2. reflexivity.
Qed.

(** *** Responses that arrive late *)

(** X8: A poll that was in flight when the run was cancelled still lands: once
    the cancellation has succeeded, the late poll response overwrites the
    mirror, status included, so [cancelled] does not stick; no timer is
    started again, so nothing polls after it. *)
Theorem late_poll_overrides_cancellation :
  forall (evs : list Event) (n : nat) (searchId : string)
         (current answer late : SearchResult) (handle : TimerId),
    let w := run evs initialWorld in
    currentSearch (store w) = Some current ->
    nth_error (pending w) n = Some (AfterStatus searchId) ->
    let w2 := run [ CallCancelSearch;
                    SearchFetchSettles (length (pending w))
                                       (Ok (Parsed answer)) ] w in
    let w3 := step w2 (SearchFetchSettles n (Ok (Parsed late))) in
    status (store w2) = cancelled /\
    status (store w3) = result_status late /\
    currentSearch (store w3) = Some late /\
    leads (store w3) = or_empty (result_leads late) /\
    timers w3 = [] /\ pollingInterval (store w3) = None /\
    step w3 (TimerFires handle) = w3.
Proof.
  intros evs n searchId current answer late handle w Hc Hn w2 w3.
  assert (Hinv : timer_inv w) by apply reachable_inv.
  destruct (cancelSearch_sent current w Hc) as [_ [Hp [Hpi [_ [Ht _]]]]].
  specialize (Ht Hinv).
  set (w1 := exec cancelSearch w) in *.
  assert (E2 : w2 = exec (cancelSearch_settled (Ok (Parsed answer)))
                         (settle (length (pending w)) w1)).
  { subst w2. cbn [run fold_left]. cbn [step]. fold w1.
    rewrite (last_pending w w1 AfterCancel Hp). reflexivity. }
  destruct (cancelSearch_settled_ok answer (settle (length (pending w)) w1))
    as [_ [Hst2 [_ [_ [_ [_ [_ [Hpi2 [Ht2 [_ [Hp2 _]]]]]]]]]]].
  rewrite <- E2 in Hst2, Hpi2, Ht2, Hp2.
  rewrite (settle_last_pending w w1 AfterCancel Hp) in Hp2.
  change (store (settle (length (pending w)) w1)) with (store w1) in Hpi2.
  change (timers (settle (length (pending w)) w1)) with (timers w1) in Ht2.
  rewrite Hpi in Hpi2. rewrite Ht in Ht2.
  assert (E3 : w3 = exec (pollSearchStatus_settled (Ok (Parsed late)))
                         (settle n w2)).
  { subst w3. cbn [step]. rewrite Hp2, Hn. reflexivity. }
  destruct (pollSearchStatus_settled_ok late (settle n w2))
    as [Hc3 [Hst3 [_ [_ [Hl3 [_ [_ [_ [_ [Hkeep Hstop]]]]]]]]]].
  rewrite <- E3 in Hc3, Hst3, Hl3, Hkeep, Hstop.
  change (store (settle n w2)) with (store w2) in *.
  change (timers (settle n w2)) with (timers w2) in *.
  assert (Hinv2 : timer_inv (settle n w2)).
  { unfold timer_inv. cbn [settle timers store]. rewrite Ht2, Hpi2.
    reflexivity. }
  assert (Hend : timers w3 = [] /\ pollingInterval (store w3) = None).
  { assert (D : result_status late = searching \/
                result_status late <> searching).
    { destruct (result_status late);
        (left; reflexivity) || (right; discriminate). }
    destruct D as [Hs | Hne].
    - destruct (Hkeep Hs) as [Ha Hb].
      split; [rewrite Ha; exact Ht2 | rewrite Hb; exact Hpi2].
    - destruct (Hstop Hne) as [Ha [_ Hb]].
      split; [exact (Hb Hinv2) | exact Ha]. }
  destruct Hend as [Ht3 Hpi3].
  repeat (split; [assumption |]).
  apply no_timer_no_tick, Ht3.
Qed.

Lemma late_poll_overrides_cancellation_witness :
  let evs := [ CallStartSearch "p1";
               SearchFetchSettles 0
                 (Ok (Parsed (sample_result searching (Finite 0) [])));
               TimerFires 1%positive ] in
  let w := run evs initialWorld in
  let late := sample_result searching (Finite (1 # 2)) two_leads in
  currentSearch (store w) = Some (sample_result searching (Finite 0) []) /\
  nth_error (pending w) 0 = Some (AfterStatus "s1") /\
  let w2 := run [ CallCancelSearch;
                  SearchFetchSettles (length (pending w))
                                     (Ok (Parsed late)) ] w in
  let w3 := step w2 (SearchFetchSettles 0 (Ok (Parsed late))) in
  status (store w2) = cancelled /\
  status (store w3) = searching /\ timers w3 = [].
Proof.
  intros evs w late.
  split; [reflexivity | split; [reflexivity |]].
  intros w2 w3.
  destruct (late_poll_overrides_cancellation evs 0 "s1"
              (sample_result searching (Finite 0) []) late late 1%positive
              eq_refl eq_refl) as [Hc [Hst [_ [_ [Ht _]]]]].
  split; [exact Hc | split; [exact Hst | exact Ht]].
Defined.

Lemma reset_frame (w : World) :
  pending (exec reset w) = pending w /\ requests (exec reset w) = requests w.
Proof.
  open_world w. destruct pollingInterval0; split; reflexivity.
Qed.

(** X9: Neither [reset] nor [stopPolling] (the page's clean-up when it
    unmounts) aborts a creation request that is in flight: when it settles
    with status [searching], the store is seeded from it and a timer is
    started for it. *)
Theorem creation_in_flight_survives_reset :
  forall (evs : list Event) (clientProfileId : string)
         (search : SearchResult) (interrupt : Event),
    interrupt = CallReset \/ interrupt = CallStopPolling ->
    result_status search = searching ->
    let w := run evs initialWorld in
    let w2 := run [CallStartSearch clientProfileId; interrupt] w in
    let w3 := step w2 (SearchFetchSettles (length (pending w))
                                          (Ok (Parsed search))) in
    timers w2 = [] /\
    status (store w3) = searching /\
    currentSearch (store w3) = Some search /\
    timers w3 = [(next_timer w, id search)] /\
    pollingInterval (store w3) = Some (next_timer w).
Proof.
  intros evs clientProfileId search interrupt Hi Hs w w2 w3.
  assert (Hinv : timer_inv w) by apply reachable_inv.
  destruct (startSearch_sent clientProfileId w)
    as [_ [Hpi [_ [Hp [_ [_ [_ Ht]]]]]]].
  specialize (Ht Hinv).
  set (w1 := exec (startSearch clientProfileId) w) in *.
  assert (Hnt1 : next_timer w1 = next_timer w).
  { subst w1. clear. open_world w. destruct pollingInterval0; reflexivity. }
  assert (H2 : timers w2 = [] /\ pollingInterval (store w2) = None /\
               pending w2 = pending w1 /\ next_timer w2 = next_timer w1).
  { subst w2. cbn [run fold_left]. change (step w (CallStartSearch
      clientProfileId)) with w1.
    clearbody w1. clear - Hi Ht Hpi.
    destruct Hi as [-> | ->]; cbn [step]; open_world w1;
      simpl in Ht, Hpi; subst; repeat split; reflexivity. }
  destruct H2 as [Ht2 [Hpi2 [Hp2 Hnt2]]].
  assert (E3 : w3 = exec (startSearch_settled (Ok (Parsed search)))
                         (settle (length (pending w)) w2)).
  { subst w3. cbn [step]. rewrite Hp2.
    rewrite (last_pending w w1 AfterCreate Hp). reflexivity. }
  assert (Hinv2 : timer_inv (settle (length (pending w)) w2)).
  { unfold timer_inv. cbn [settle timers store]. rewrite Ht2, Hpi2.
    reflexivity. }
  destruct (startSearch_settled_ok search (settle (length (pending w)) w2))
    as [Hc3 [Hst3 [_ [_ [_ [_ [_ [_ [_ [Hstart _]]]]]]]]]].
  destruct (Hstart Hs Hinv2) as [Ha Hb].
  rewrite <- E3 in Hc3, Hst3, Ha, Hb.
  change (next_timer (settle (length (pending w)) w2))
    with (next_timer w2) in Ha, Hb.
  rewrite Hnt2, Hnt1 in Ha, Hb. rewrite Hs in Hst3.
  repeat (split; [assumption |]). exact Hb.
Qed.

Lemma creation_in_flight_survives_reset_witness :
  let search := sample_result searching (Finite 0) [] in
  let w := run [] initialWorld in
  (CallReset = CallReset \/ CallReset = CallStopPolling) /\
  result_status search = searching /\
  let w2 := run [CallStartSearch "p1"; CallReset] w in
  let w3 := step w2 (SearchFetchSettles (length (pending w))
                                        (Ok (Parsed search))) in
  status (store w3) = searching /\
  timers w3 = [(next_timer w, id search)].
Proof.
  intros search w.
  split; [left; reflexivity | split; [reflexivity |]].
  intros w2 w3.
  destruct (creation_in_flight_survives_reset [] "p1" search CallReset
              (or_introl eq_refl) eq_refl) as [_ [Hst [_ [Ht _]]]].
  split; [exact Hst | exact Ht].
Defined.

(** X10: When a fetch settles, whatever its result, the store sends nothing: a
    failed creation, cancellation or poll is not retried on the spot, and
    a creation that succeeded does not poll before the first tick. *)
Theorem settling_sends_nothing :
  forall (w : World) (n : nat)
         (r : Fetched SearchResult) (rh : Fetched HistoryBody),
    requests (step w (SearchFetchSettles n r)) = requests w /\
    requests (step w (HistoryFetchSettles n rh)) = requests w.
Proof.
  intros w n r rh. open_world w. split; cbn [step pending];
    destruct (nth_error pending0 n) as [[| |sid|]|]; try reflexivity.
  - destruct r as [t|body|[search|t]]; try reflexivity.
    run_actions. destruct (result_status search);
      destruct pollingInterval0; reflexivity.
  - destruct r as [t|body|[search|t]]; reflexivity.
  - destruct r as [t|body|[search|t]]; try reflexivity.
    run_actions. destruct (result_status search);
      destruct pollingInterval0; reflexivity.
  - destruct rh as [t|body|[data|t]]; reflexivity.
Qed.

(** ** The manual override panel *)

Import ManualOverridePanel.

Lemma isEmpty_updated_unsets (o : ManualOverride) (c : Change) :
  isEmpty (updated o c) = true -> unsets c = true.
Proof.
  unfold isEmpty. destruct c as [[|]|v|v|v|v|v|v]; simpl; intros H;
    repeat (apply andb_prop in H; destruct H as [H ?]);
    try reflexivity; try discriminate; assumption.
Qed.

Lemma isEmpty_updated (o : ManualOverride) (c : Change) :
  isEmpty o = true -> isEmpty (updated o c) = unsets c.
Proof.
  unfold isEmpty. intros H.
  repeat (apply andb_prop in H; destruct H as [H ?]).
  destruct c as [[|]|v|v|v|v|v|v]; simpl;
    repeat match goal with
           | E : _ = true |- _ => rewrite E; clear E
           end; simpl; rewrite ?andb_true_r; reflexivity.
Qed.

Lemma updated_twice (o : ManualOverride) (c : Change) :
  updated (updated o c) c = updated o c.
Proof. destruct c; reflexivity. Qed.

(** X14: The panel never hands an empty override to the store: after any edit
    the store holds null or an override that is not empty, and that is
    what the next creation request carries as [manual_override]. *)
Theorem edit_never_stores_empty_override :
  forall (w : World) (c : Change) (clientProfileId : string),
    let w1 := exec (edit c) w in
    let w2 := exec (startSearch clientProfileId) w1 in
    (manualOverride (store w1) = None \/
     exists u, manualOverride (store w1) = Some u /\ isEmpty u = false) /\
    requests w2 = requests w ++
                  [POST_searches clientProfileId (qualityLevel (store w))
                                 (manualOverride (store w1))] /\
    same_run (store w) (store w1) /\
    timers w1 = timers w /\ requests w1 = requests w.
Proof.
  intros w c clientProfileId w1 w2.
  assert (E1 : manualOverride (store w1)
               = handleChange (manualOverride (store w)) c).
  { subst w1. open_world w. reflexivity. }
  split; [| split; [| split; [| split]]].
  - rewrite E1. unfold handleChange.
    destruct (isEmpty (updated (currentOverride (manualOverride (store w))) c))
      eqn:Ee; [left; reflexivity |].
    right. eexists. split; [reflexivity | exact Ee].
  - destruct (startSearch_sent clientProfileId w1) as [_ [_ [_ [_ [Hr _]]]]].
    fold w2 in Hr. rewrite Hr. subst w1. open_world w. reflexivity.
  - subst w1. unfold same_run. open_world w. repeat split; reflexivity.
  - subst w1. open_world w. reflexivity.
  - subst w1. open_world w. reflexivity.
Qed.

(** X15: Making the same edit twice is the same as making it once. *)
Theorem handleChange_idempotent :
  forall (override : option ManualOverride) (c : Change),
    handleChange (handleChange override c) c = handleChange override c.
Proof.
  intros override c. unfold handleChange at 2 3.
  destruct (isEmpty (updated (currentOverride override) c)) eqn:Ee.
  - unfold handleChange. cbn [currentOverride].
    rewrite (isEmpty_updated defaultOverride c eq_refl).
    rewrite (isEmpty_updated_unsets _ _ Ee). reflexivity.
  - unfold handleChange. cbn [currentOverride].
    rewrite updated_twice, Ee. reflexivity.
Qed.

(** X16: Choosing the mode [replace] always activates the override, and while
    the mode is [replace] no edit other than going back to [supplement]
    deactivates it or changes the mode. *)
Theorem replace_mode_keeps_override :
  forall (override : option ManualOverride) (c : Change),
    (exists u, handleChange override (change_mode replace) = Some u /\
               mode u = replace) /\
    (mode (currentOverride override) = replace ->
     c <> change_mode supplement ->
     exists u, handleChange override c = Some u /\ mode u = replace).
Proof.
  intros override c. split.
  - unfold handleChange, isEmpty. simpl. eexists. split; reflexivity.
  - intros Hm Hc. unfold handleChange, isEmpty.
    destruct c as [[|]|v|v|v|v|v|v]; try contradiction; simpl;
      try rewrite Hm; simpl; eexists; (split; [reflexivity |]);
      try reflexivity; exact Hm.
Qed.

Lemma replace_mode_keeps_override_witness :
  let o := Some (updated defaultOverride (change_mode replace)) in
  mode (currentOverride o) = replace /\
  change_keywords "" <> change_mode supplement /\
  exists u, handleChange o (change_keywords "") = Some u /\
            mode u = replace.
Proof.
  intros o.
  split; [reflexivity | split; [discriminate |]].
  destruct (replace_mode_keeps_override o (change_keywords "")) as [_ H].
  apply H; [reflexivity | discriminate].
Defined.

(** X17: While nothing is set, an edit activates the override exactly when its
    new value is truthy: the mode [replace], a non-empty text, a company
    size, or a budget that is a number other than 0 and NaN.  A budget of
    0 alone leaves the override null. *)
Theorem first_edit_activates_iff_truthy :
  forall (override : option ManualOverride) (c : Change),
    isEmpty (currentOverride override) = true ->
    (handleChange override c = None <-> unsets c = true) /\
    handleChange override (change_budgetMin (Some (Finite 0))) = None /\
    handleChange override (change_budgetMax (Some NaN)) = None.
Proof.
  intros override c He. unfold handleChange.
  rewrite !(isEmpty_updated _ _ He). simpl.
  repeat split; try reflexivity.
  - destruct (unsets c); [reflexivity | discriminate].
  - intros ->. reflexivity.
Qed.

Lemma first_edit_activates_iff_truthy_witness :
  isEmpty (currentOverride None) = true /\
  handleChange None (change_budgetMin (Some (Finite 0))) = None /\
  handleChange None (change_budgetMin (Some (Finite 500)))
    = Some (updated defaultOverride (change_budgetMin (Some (Finite 500)))).
Proof.
  split; [reflexivity |].
  destruct (first_edit_activates_iff_truthy None
              (change_budgetMin (Some (Finite 500))) eq_refl)
    as [_ [H0 _]].
  split; [exact H0 | reflexivity].
Defined.

(** ** The search page *)

Import SearchPage.


(** X19: 'Try Again' resets the store before it starts the search, so the
    retried request goes out with the default quality level 0.7 and no
    manual override, whatever the user had set, and the history is
    emptied. *)
Theorem handleRetry_forgets_parameters :
  forall (pg : Page) (profile : ClientProfile),
    let pg' := handleRetry (Some profile) pg in
    requests (search pg') =
      requests (search pg) ++
      [POST_searches (profile_id profile) (Finite (7 # 10)) None] /\
    qualityLevel (store (search pg')) = Finite (7 # 10) /\
    manualOverride (store (search pg')) = None /\
    searchHistory (store (search pg')) = [] /\
    status (store (search pg')) = searching /\
    pushed pg' = pushed pg.
Proof.
  intros pg profile pg'. subst pg'.
  destruct pg as [w routes].
  cbn [handleRetry handleStartSearch search pushed].
  open_world w. destruct pollingInterval0; repeat split; reflexivity.
Qed.

Lemma startSearch_failed_state (w : World) (clientProfileId : string)
                                 (r : Fetched SearchResult) :
  fetch_failed r = true ->
  let w2 := run [ CallStartSearch clientProfileId;
                  SearchFetchSettles (length (pending w)) r ] w in
  status (store w2) = error /\
  error_ (store w2) = Some (failure_message r "Failed to start search").
Proof.
  intros Hf w2.
  destruct (startSearch_sent clientProfileId w) as [_ [_ [_ [Hp _]]]].
  set (w1 := exec (startSearch clientProfileId) w) in *.
  assert (E : w2 = exec (startSearch_settled r)
                        (settle (length (pending w)) w1)).
  { subst w2. cbn [run fold_left]. cbn [step]. fold w1.
    rewrite (last_pending w w1 AfterCreate Hp). reflexivity. }
  destruct (startSearch_settled_failed r (settle (length (pending w)) w1) Hf)
    as [Hst [He _]].
  rewrite <- E in Hst, He. split; assumption.
Qed.

(** X20: After a failed creation the page is out of its searching state: the
    progress panel is hidden and the results panel shows 'Search Failed'
    with the stored message, or with the panel's own text when that
    message is empty, and with the retry button. *)
Theorem failed_search_shows_error_panel :
  forall (w : World) (clientProfileId : string) (r : Fetched SearchResult),
    fetch_failed r = true ->
    let w2 := run [ CallStartSearch clientProfileId;
                    SearchFetchSettles (length (pending w)) r ] w in
    isSearching (store w2) = false /\
    showProgress (store w2) = false /\
    results_panel (store w2) =
      Some (SearchFailed
              (or_else (Some (failure_message r "Failed to start search"))
                       "An error occurred during the search.")
              true) /\
    forall text retry,
      results_panel (store w2) = Some (SearchFailed text retry) ->
      text <> "".
Proof.
  intros w clientProfileId r Hf w2.
  destruct (startSearch_failed_state w clientProfileId r Hf) as [Hst He].
  fold w2 in Hst, He.
  unfold isSearching, showProgress, results_panel, showResults,
    SearchResults.
  rewrite Hst, He. cbn [SearchStatus_eqb orb].
  rewrite !orb_true_r.
  repeat split; try reflexivity.
  intros text retry E. injection E as <- _.
  destruct (failure_message r "Failed to start search"); discriminate.
Qed.

Lemma failed_search_shows_error_panel_witness :
  let r := @Rejected SearchResult (Error "") in
  fetch_failed r = true /\
  let w2 := run [ CallStartSearch "p1";
                  SearchFetchSettles (length (pending polling_world)) r ]
                polling_world in
  results_panel (store w2) =
    Some (SearchFailed "An error occurred during the search." true).
Proof.
  intros r. split; [reflexivity |].
  intros w2.
  destruct (failed_search_shows_error_panel polling_world "p1" r eq_refl)
    as [_ [_ [H _]]].
  exact H.
Defined.

(** ** The CSV export *)

Module ExportFacts.

Import ResultsExport.

Lemma append_assoc (a b c : string) :
  String.append (String.append a b) c = String.append a (String.append b c).
Proof. induction a; simpl; [reflexivity | rewrite IHa; reflexivity]. Qed.

Lemma append_empty (a : string) : String.append a EmptyString = a.
Proof. induction a; simpl; [reflexivity | rewrite IHa; reflexivity]. Qed.

Lemma append_cancel (a b c : string) :
  String.append a b = String.append a c -> b = c.
Proof.
  induction a as [|x a IH]; simpl; intros H; [exact H |].
  injection H as H. exact (IH H).
Qed.

Lemma read_escape (cell rest acc : string) cells rows :
  read (String.append (escape cell) (String quote rest)) Inside acc
       cells rows =
  read rest Closing (String.append acc cell) cells rows.
Proof.
  revert acc. induction cell as [|c cell IH]; intros acc.
  - cbn [escape String.append read]. rewrite Ascii.eqb_refl, append_empty.
    reflexivity.
  - cbn [escape]. destruct (Ascii.eqb c quote) eqn:E.
    + cbn [String.append read]. rewrite !Ascii.eqb_refl.
      apply Ascii.eqb_eq in E. subst c.
      rewrite IH, append_assoc. reflexivity.
    + cbn [String.append read]. rewrite E.
      rewrite IH, append_assoc. reflexivity.
Qed.

Lemma read_quoted (cell rest : string) cells rows :
  read (String.append (quoted cell) rest) Opening EmptyString cells rows =
  read rest Closing cell cells rows.
Proof.
  unfold quoted. cbn [String.append read]. rewrite Ascii.eqb_refl.
  rewrite append_assoc. cbn [String.append].
  apply read_escape.
Qed.

Lemma join_cons (sep x : string) (l : list string) :
  l <> [] ->
  join sep (x :: l) = String.append x (String.append sep (join sep l)).
Proof. destruct l; [contradiction | reflexivity]. Qed.

Lemma read_line (before : list string) (final rest : string) cells rows :
  read (String.append (line (before ++ [final])) rest) Opening EmptyString
       cells rows =
  read rest Closing final (cells ++ before) rows.
Proof.
  revert cells. induction before as [|c before IH]; intros cells.
  - unfold line. cbn [app map join].
    rewrite read_quoted, app_nil_r. reflexivity.
  - unfold line in *. cbn [app map].
    rewrite join_cons.
    2:{ destruct before; discriminate. }
    rewrite !append_assoc, read_quoted.
    cbn [String.append read].
    assert (Hq : Ascii.eqb comma quote = false) by reflexivity.
    rewrite Hq, Ascii.eqb_refl.
    rewrite IH, <- app_assoc. reflexivity.
Qed.

Lemma read_rows (r : list string) (rows : list (list string)) done :
  r <> [] -> Forall (fun x => x <> []) rows ->
  read (table (r :: rows)) Opening EmptyString [] done =
  Some (done ++ r :: rows).
Proof.
  revert r done. induction rows as [|r' rows IH]; intros r done Hr Hrows;
    destruct (exists_last Hr) as [before [final ->]].
  - unfold table. cbn [map join].
    rewrite <- (append_empty (line (before ++ [final]))), read_line.
    reflexivity.
  - unfold table in *. cbn [map]. rewrite join_cons by discriminate.
    rewrite read_line. cbn [String.append read app].
    assert (Hq : Ascii.eqb newline quote = false) by reflexivity.
    assert (Hc : Ascii.eqb newline comma = false) by reflexivity.
    rewrite Hq, Hc, Ascii.eqb_refl.
    inversion Hrows as [|? ? Hr' Hrows']; subst.
    change (line r' :: map line rows) with (map line (r' :: rows)).
    rewrite (IH r' _ Hr' Hrows'), <- app_assoc. reflexivity.
Qed.

Lemma csvContent_table (percent : number -> string) (l : Lead)
                       (ls : list Lead) :
  csvContent percent (l :: ls) =
  String.append (join (String comma EmptyString) headers)
                (String newline (table (map (row percent) (l :: ls)))).
Proof.
  unfold csvContent, table, line. rewrite join_cons by discriminate.
  rewrite map_map. reflexivity.
Qed.

Lemma read_lead_rows (percent : number -> string) (l : Lead)
                     (ls : list Lead) :
  read_table (table (map (row percent) (l :: ls)))
  = Some (map (row percent) (l :: ls)).
Proof.
  unfold read_table. cbn [map]. rewrite read_rows.
  - reflexivity.
  - discriminate.
  - apply Forall_forall. intros cells Hin.
    apply in_map_iff in Hin. destruct Hin as [x [<- _]]. discriminate.
Qed.

Lemma header_alone (percent : number -> string) (body : string) :
  csvContent percent [] =
  String.append (join (String comma EmptyString) headers)
                (String newline body) ->
  False.
Proof.
  intros E.
  change (csvContent percent [])
    with (join (String comma EmptyString) headers) in E.
  rewrite <- (append_empty (join (String comma EmptyString) headers))
    in E at 1.
  apply append_cancel in E. discriminate.
Qed.

End ExportFacts.

(** X21: The export can be read back: for one lead or more, the file is the
    header line, a line break, and text from which a reader of quoted CSV
    recovers exactly the seven cells of every lead, in order, whatever
    commas, quotes or line breaks the values contain.  With no lead the
    file is the header line alone. *)
Theorem csvContent_reads_back :
  forall (percent : number -> string) (ls : list Lead),
    ResultsExport.csvContent percent [] =
      "Name,Company,Email,Phone,Intent Score,Source,Source URL" /\
    (ls <> [] ->
     exists data,
       ResultsExport.csvContent percent ls =
         String.append
           "Name,Company,Email,Phone,Intent Score,Source,Source URL"
           (String ResultsExport.newline data) /\
       ResultsExport.read_table data
         = Some (map (ResultsExport.row percent) ls) /\
       Forall (fun cells => length cells = 7%nat)
              (map (ResultsExport.row percent) ls)).
Proof.
  intros percent ls. split; [reflexivity |].
  intros Hne. destruct ls as [|l ls]; [contradiction |].
  exists (ResultsExport.table (map (ResultsExport.row percent) (l :: ls))).
  split; [| split].
  - rewrite ExportFacts.csvContent_table. reflexivity.
  - apply ExportFacts.read_lead_rows.
  - apply Forall_forall. intros cells Hin.
    apply in_map_iff in Hin. destruct Hin as [x [<- _]]. reflexivity.
Qed.

Lemma csvContent_reads_back_witness :
  let tricky := {| lead_id := "l1";
                   lead_name := String ResultsExport.quote "Ann, Lee";
                   company := String ResultsExport.newline "Acme";
                   email := None; phone := Some "";
                   intent_score := Finite (8 # 10);
                   score_breakdown := None; source := "reddit";
                   source_url := None;
                   created_at := "2025-01-01T00:00:00Z" |} in
  [tricky] <> [] /\
  exists data,
    ResultsExport.read_table data
      = Some [[ String ResultsExport.quote "Ann, Lee";
                String ResultsExport.newline "Acme"; ""; ""; "80%";
                "reddit"; "" ]].
Proof.
  intros tricky.
  assert (Hne : [tricky] <> []) by discriminate.
  split; [exact Hne |].
  destruct (csvContent_reads_back ResultsExport.sample_percent [tricky])
    as [_ H].
  destruct (H Hne) as [data [_ [Hr _]]].
  exists data. exact Hr.
Defined.

(** X22: Two exports are the same text only if they hold the same rows: no two
    different lists of rows are written as the same file. *)
Theorem csvContent_injective_on_rows :
  forall (percent : number -> string) (ls ls' : list Lead),
    ResultsExport.csvContent percent ls = ResultsExport.csvContent percent ls' ->
    map (ResultsExport.row percent) ls = map (ResultsExport.row percent) ls'.
Proof.
  intros percent ls ls' E.
  destruct ls as [|l ls]; destruct ls' as [|l' ls'].
  - reflexivity.
  - exfalso. rewrite ExportFacts.csvContent_table in E.
    apply ExportFacts.header_alone in E. exact E.
  - exfalso. rewrite ExportFacts.csvContent_table in E. symmetry in E.
    apply ExportFacts.header_alone in E. exact E.
  - rewrite !ExportFacts.csvContent_table in E.
    apply ExportFacts.append_cancel in E.
    assert (Et : ResultsExport.table (map (ResultsExport.row percent) (l :: ls))
                 = ResultsExport.table
                     (map (ResultsExport.row percent) (l' :: ls')))
      by (injection E as E; exact E).
    pose proof (ExportFacts.read_lead_rows percent l ls) as Hr.
    pose proof (ExportFacts.read_lead_rows percent l' ls') as Hr'.
    rewrite Et in Hr. congruence.
Qed.

Lemma csvContent_injective_on_rows_witness :
  map (ResultsExport.row ResultsExport.sample_percent) two_leads
  = map (ResultsExport.row ResultsExport.sample_percent) two_leads.
Proof.
  apply (csvContent_injective_on_rows ResultsExport.sample_percent
           two_leads two_leads).
  reflexivity.
Defined.

(** ** The log and the timers *)

Ltac count_log :=
  unfold log_matches_timers, count_event in *; cbn [log timers] in *;
  rewrite ?filter_app, ?length_app in *;
  cbn [filter event String.eqb Ascii.eqb Bool.eqb length app negb fst] in *;
  rewrite ?Pos.eqb_refl in *;
  cbn [filter event String.eqb Ascii.eqb Bool.eqb length app negb fst] in *;
  lia.

Lemma step_log (w : World) (ev : Event) :
  timer_inv w -> log_matches_timers w -> log_matches_timers (step w ev).
Proof.
  intros H L. destruct ev; cbn [step].
  - open_world w. destruct pollingInterval0 as [h|]; use_inv H;
      run_actions; count_log.
  - open_world w. destruct currentSearch0;
      destruct pollingInterval0 as [h|]; use_inv H;
      run_actions; count_log.
  - open_world w. run_actions. count_log.
  - open_world w. run_actions. count_log.
  - open_world w. run_actions. count_log.
  - open_world w. run_actions. count_log.
  - open_world w. destruct pollingInterval0 as [h|]; use_inv H;
      run_actions; count_log.
  - open_world w. destruct pollingInterval0 as [h|]; use_inv H;
      run_actions; count_log.
  - open_world w. run_actions. count_log.
  - open_world w. destruct pollingInterval0 as [h|]; use_inv H;
      run_actions; count_log.
  - destruct (timer_target handle w); [| exact L].
    open_world w. run_actions. count_log.
  - open_world w. cbn [pending].
    destruct (nth_error pending0 n) as [[| |sid|]|]; try exact L;
      destruct r as [t|body|[search|t]];
      try (run_actions; count_log);
      destruct pollingInterval0 as [h|]; use_inv H;
      run_actions; destruct (result_status search); simpl; count_log.
  - open_world w. cbn [pending].
    destruct (nth_error pending0 n) as [[| |sid|]|]; try exact L;
      destruct r as [t|body|[data|t]]; run_actions; count_log.
Qed.

(** X11: Whatever happens, the number of [polling_started] entries in the log
    is the number of [polling_stopped] entries plus the number of timers
    active: a timer is never started or cleared without its log entry. *)
Theorem polling_log_matches_timers :
  forall (evs : list Event),
    let w := run evs initialWorld in
    count_event "polling_started" (log w) =
    (count_event "polling_stopped" (log w) + length (timers w))%nat.
Proof.
  intros evs w. subst w.
  assert (G : forall w, timer_inv w -> log_matches_timers w ->
                        log_matches_timers (run evs w)).
  { induction evs as [|ev evs IH]; intros w H L; simpl.
    - exact L.
    - apply IH; [apply step_inv, H | apply step_log; assumption]. }
  apply G; reflexivity.
Qed.

(** ** Races between a new search and what is still in flight *)

(** X23: A poll of the previous run that is answered after a new search has
    been created still lands: it overwrites the mirror of the new run,
    and when its status is not [searching] it clears the timer of the new
    run, which is then never polled. *)
Theorem late_poll_stops_new_run :
  forall (evs : list Event) (n : nat) (searchId clientProfileId : string)
         (created late : SearchResult) (handle : TimerId),
    let w := run evs initialWorld in
    nth_error (pending w) n = Some (AfterStatus searchId) ->
    result_status created = searching ->
    result_status late <> searching ->
    let w2 := run [ CallStartSearch clientProfileId;
                    SearchFetchSettles (length (pending w))
                                       (Ok (Parsed created)) ] w in
    let w3 := step w2 (SearchFetchSettles n (Ok (Parsed late))) in
    timers w2 = [(next_timer w, id created)] /\
    currentSearch (store w2) = Some created /\
    currentSearch (store w3) = Some late /\
    status (store w3) = result_status late /\
    leads (store w3) = or_empty (result_leads late) /\
    timers w3 = [] /\ pollingInterval (store w3) = None /\
    step w3 (TimerFires handle) = w3.
Proof.
  intros evs n searchId clientProfileId created late handle w Hn Hs Hne w2 w3.
  assert (Hinv : timer_inv w) by apply reachable_inv.
  destruct (startSearch_sent clientProfileId w)
    as [_ [Hpi [_ [Hp [_ [_ [_ Ht]]]]]]].
  specialize (Ht Hinv).
  set (w1 := exec (startSearch clientProfileId) w) in *.
  assert (Hnt1 : next_timer w1 = next_timer w).
  { subst w1. clear. open_world w. destruct pollingInterval0; reflexivity. }
  assert (E2 : w2 = exec (startSearch_settled (Ok (Parsed created)))
                         (settle (length (pending w)) w1)).
  { subst w2. cbn [run fold_left]. cbn [step]. fold w1.
    rewrite (last_pending w w1 AfterCreate Hp). reflexivity. }
  assert (Hinv1 : timer_inv (settle (length (pending w)) w1)).
  { unfold timer_inv. cbn [settle timers store]. rewrite Ht, Hpi.
    reflexivity. }
  destruct (startSearch_settled_ok created (settle (length (pending w)) w1))
    as [Hc2 [_ [_ [_ [_ [_ [_ [_ [Hp2 [Hstart _]]]]]]]]]].
  destruct (Hstart Hs Hinv1) as [Ht2 Hpi2].
  rewrite <- E2 in Hc2, Hp2, Ht2, Hpi2.
  rewrite (settle_last_pending w w1 AfterCreate Hp) in Hp2.
  change (next_timer (settle (length (pending w)) w1))
    with (next_timer w1) in Ht2, Hpi2.
  rewrite Hnt1 in Ht2, Hpi2.
  assert (E3 : w3 = exec (pollSearchStatus_settled (Ok (Parsed late)))
                         (settle n w2)).
  { subst w3. cbn [step]. rewrite Hp2, Hn. reflexivity. }
  assert (Hinv2 : timer_inv (settle n w2)).
  { unfold timer_inv. cbn [settle timers store]. rewrite Ht2, Hpi2.
    reflexivity. }
  destruct (pollSearchStatus_settled_ok late (settle n w2))
    as [Hc3 [Hst3 [_ [_ [Hl3 [_ [_ [_ [_ [_ Hstop]]]]]]]]]].
  destruct (Hstop Hne) as [Hpi3 [_ Ht3]].
  specialize (Ht3 Hinv2).
  rewrite <- E3 in Hc3, Hst3, Hl3, Hpi3, Ht3.
  repeat (split; [assumption |]).
  apply no_timer_no_tick, Ht3.
Qed.

Lemma late_poll_stops_new_run_witness :
  let evs := [ CallStartSearch "p1";
               SearchFetchSettles 0
                 (Ok (Parsed (sample_result searching (Finite 0) [])));
               TimerFires 1%positive ] in
  let w := run evs initialWorld in
  let created := sample_result searching (Finite 0) [] in
  let late := sample_result completed (Finite 1) three_leads in
  nth_error (pending w) 0 = Some (AfterStatus "s1") /\
  result_status created = searching /\
  result_status late <> searching /\
  let w2 := run [ CallStartSearch "p2";
                  SearchFetchSettles (length (pending w))
                                     (Ok (Parsed created)) ] w in
  let w3 := step w2 (SearchFetchSettles 0 (Ok (Parsed late))) in
  timers w2 = [(next_timer w, id created)] /\
  status (store w3) = result_status late /\ timers w3 = [].
Proof.
  intros evs w created late.
  assert (Hne : result_status late <> searching) by discriminate.
  split; [reflexivity | split; [reflexivity | split; [exact Hne |]]].
  intros w2 w3.
  destruct (late_poll_stops_new_run evs 0 "s1" "p2" created late 1%positive
              eq_refl eq_refl Hne) as [Ht2 [_ [_ [Hst [_ [Ht3 _]]]]]].
  split; [exact Ht2 | split; [exact Hst | exact Ht3]].
Defined.

Lemma cancelSearch_nothing_to_cancel (w : World) :
  currentSearch (store w) = None ->
  store (exec cancelSearch w) = store w /\
  timers (exec cancelSearch w) = timers w /\
  next_timer (exec cancelSearch w) = next_timer w /\
  requests (exec cancelSearch w) = requests w /\
  pending (exec cancelSearch w) = pending w.
Proof.
  intros H. open_world w. simpl in H. subst. repeat split; reflexivity.
Qed.

(** X24: While the creation request is in flight the page shows the status
    [searching] and offers 'Cancel Search', but there is no current run
    yet: pressing the button sends nothing and changes nothing but the
    log, and the search goes on to be created and polled. *)
Theorem cancel_before_creation_is_ignored :
  forall (evs : list Event) (clientProfileId : string)
         (created : SearchResult),
    result_status created = searching ->
    let w := run evs initialWorld in
    let w1 := step w (CallStartSearch clientProfileId) in
    let w2 := step w1 CallCancelSearch in
    let w3 := step w2 (SearchFetchSettles (length (pending w))
                                          (Ok (Parsed created))) in
    SearchPage.cancel_offered (store w1) = true /\
    store w2 = store w1 /\ requests w2 = requests w1 /\
    pending w2 = pending w1 /\
    status (store w3) = searching /\
    currentSearch (store w3) = Some created /\
    timers w3 = [(next_timer w, id created)] /\
    requests w3 = requests w ++
                  [POST_searches clientProfileId (qualityLevel (store w))
                                 (manualOverride (store w))].
Proof.
  intros evs clientProfileId created Hs w w1 w2 w3.
  assert (Hinv : timer_inv w) by apply reachable_inv.
  destruct (startSearch_sent clientProfileId w)
    as [Hc [Hpi [_ [Hp [Hr [_ [_ Ht]]]]]]].
  specialize (Ht Hinv).
  change (exec (startSearch clientProfileId) w) with w1 in Hc, Hpi, Hp, Hr, Ht.
  assert (Hnt1 : next_timer w1 = next_timer w).
  { subst w1. clear. open_world w. destruct pollingInterval0; reflexivity. }
  destruct Hc as [Hst1 [_ [_ [_ [_ Hcur]]]]].
  destruct (cancelSearch_nothing_to_cancel w1 Hcur)
    as [Hs2 [Ht2 [Hnt2 [Hr2 Hp2]]]].
  change (exec cancelSearch w1) with w2 in Hs2, Ht2, Hnt2, Hr2, Hp2.
  assert (E3 : w3 = exec (startSearch_settled (Ok (Parsed created)))
                         (settle (length (pending w)) w2)).
  { subst w3. cbn [step]. rewrite Hp2.
    rewrite (last_pending w w1 AfterCreate Hp). reflexivity. }
  assert (Hinv2 : timer_inv (settle (length (pending w)) w2)).
  { unfold timer_inv. cbn [settle timers store]. rewrite Ht2, Hs2, Ht, Hpi.
    reflexivity. }
  destruct (startSearch_settled_ok created (settle (length (pending w)) w2))
    as [Hc3 [Hst3 [_ [_ [_ [_ [_ [Hr3 [_ [Hstart _]]]]]]]]]].
  destruct (Hstart Hs Hinv2) as [Ht3 _].
  rewrite <- E3 in Hc3, Hst3, Hr3, Ht3.
  change (next_timer (settle (length (pending w)) w2))
    with (next_timer w2) in Ht3.
  change (requests (settle (length (pending w)) w2))
    with (requests w2) in Hr3.
  rewrite Hnt2, Hnt1 in Ht3. rewrite Hs in Hst3.
  rewrite Hr2, Hr in Hr3.
  split.
  { unfold SearchPage.cancel_offered, SearchPage.showProgress.
    rewrite Hst1. reflexivity. }
  repeat (split; [assumption |]). exact Hr3.
Qed.

Lemma cancel_before_creation_is_ignored_witness :
  let created := sample_result searching (Finite 0) [] in
  let w := run [] initialWorld in
  result_status created = searching /\
  let w1 := step w (CallStartSearch "p1") in
  let w2 := step w1 CallCancelSearch in
  let w3 := step w2 (SearchFetchSettles (length (pending w))
                                        (Ok (Parsed created))) in
  requests w2 = requests w1 /\ status (store w3) = searching /\
  timers w3 = [(next_timer w, id created)].
Proof.
  intros created w. split; [reflexivity |].
  intros w1 w2 w3.
  destruct (cancel_before_creation_is_ignored [] "p1" created eq_refl)
    as [_ [_ [Hr [_ [Hst [_ [Ht _]]]]]]].
  split; [exact Hr | split; [exact Hst | exact Ht]].
Defined.
